(** * RGBAImage: conversion between packed 8-bit pixel buffers and
      channel-array images (minorGems, graphics/RGBAImage.h)

    A shallow embedding of the inline functions of [RGBAImage.h]:
    the static encoder [getRGBABytes( Image* )], the member
    [getRGBABytes()], the decoder [getImageFromBytes], the converting
    constructor [RGBAImage( Image* )] and the two [filter] overloads.

    - [double] is Rocq's primitive binary64 [float]; [*] is the IEEE
      multiplication, rounded to nearest even.
    - [unsigned char] is [Byte.byte].
    - An array is a list; reading or writing outside it has no defined
      behaviour in C++ and is [None] here, as is every other operation
      whose result the language leaves open.
    - [int] dimensions and indices are [nat]: the code uses them only
      for non-negative counts, and signed overflow is undefined. *)

From Stdlib Require Import ZArith QArith Qabs Lia Floats Uint63.
From Stdlib.Strings Require Import Byte.
From stdpp Require Import base option list.

Set Warnings "-inexact-float".
Local Open Scope nat_scope.

(** ** Arrays *)

Module Arr.

(** [a[i]] as an rvalue. *)
Definition read {A} (a : list A) (i : nat) : option A := a !! i.

(** [a[i] = v]. *)
Definition write {A} (a : list A) (i : nat) (v : A) : option (list A) :=
  if decide (i < length a) then Some (<[i := v]> a) else None.

(** [new T[n]] without an initialiser: [n] cells whose content is
    whatever the allocator left there, given by [junk]. *)
Definition alloc {A} (junk : nat -> A) (n : nat) : list A :=
  junk <$> seq 0 n.

(** [memcpy( dst, src, n * sizeof( T ) )]. *)
Definition memcpy {A} (dst src : list A) (n : nat) : option (list A) :=
  if decide (n <= length src /\ n <= length dst)
  then Some (take n src ++ drop n dst)
  else None.

End Arr.

(** [for( int i=from; i<from+count; i++ ) body], the state threaded
    through the iterations. *)
Fixpoint for_loop {S : Type} (count from : nat)
    (body : nat -> S -> option S) (s : S) : option S :=
  match count with
  | O => Some s
  | Datatypes.S k => s' ← body from s; for_loop k (Datatypes.S from) body s'
  end.

(** ** Numeric conversions *)

(** Integer nearest to [m / d], ties to the even one. *)
Definition round_half_even (m d : Z) : Z :=
  let q := (m / d)%Z in
  match (2 * (m mod d) ?= d)%Z with
  | Lt => q
  | Gt => (q + 1)%Z
  | Eq => if Z.even q then q else (q + 1)%Z
  end.

(** The integer [lrint] rounds the binary64 value [x] to, in the default
    rounding mode (to nearest, ties to even), before the range of
    [long] is considered. *)
Definition SF_rint (x : spec_float) : option Z :=
  match x with
  | S754_zero _ => Some 0%Z
  | S754_finite s m e =>
      let n := match e with
               | Zneg k => round_half_even (Zpos m) (Zpos (2 ^ k))
               | _ => (Zpos m * 2 ^ e)%Z
               end in
      Some (if s then (- n)%Z else n)
  | S754_infinity _ | S754_nan => None
  end.

(** [lrint( x )] of <math.h>.  The result is unspecified for a NaN, an
    infinity, or a rounded value outside [long]; [long] has at least 32
    bits, and the model is defined on that range only. *)
Definition lrint (x : float) : option Z :=
  n ← SF_rint (Prim2SF x);
  if decide (- 2 ^ 31 <= n < 2 ^ 31)%Z then Some n else None.

(** [(unsigned char)( n )] for a [long] n: reduction modulo 256. *)
Definition uchar_of_long (n : Z) : byte :=
  default x00 (Byte.of_N (Z.to_N (n mod 256))).

(** An [unsigned char] promoted to [int]. *)
Definition int_of_uchar (b : byte) : Z := Z.of_N (Byte.to_N b).

(** An [unsigned char] operand of a [double] multiplication. *)
Definition double_of_uchar (b : byte) : float :=
  PrimFloat.of_uint63 (Uint63.of_Z (int_of_uchar b)).

(** [(unsigned char)( lrint( s * 255 ) )]. *)
Definition sample_to_byte (s : float) : option byte :=
  n ← lrint (s * 255)%float; Some (uchar_of_long n).

(** [b * 0.003921569]. *)
Definition byte_to_sample (b : byte) : float :=
  (double_of_uchar b * 0.003921569)%float.

(** The exact value of a finite binary64 number, as a rational. *)
Definition SF2Q (x : spec_float) : option Q :=
  match x with
  | S754_zero _ => Some (inject_Z 0)
  | S754_finite s m e =>
      let sm := if s then Zneg m else Zpos m in
      Some match e with
           | Zneg k => Qmake sm (2 ^ k)
           | _ => inject_Z (sm * 2 ^ e)
           end
  | S754_infinity _ | S754_nan => None
  end.

(** [n] is an integer nearest to the finite [double] [x]: they differ
    by at most one half. *)
Definition nearest_integer (n : Z) (x : float) : Prop :=
  exists v : Q, SF2Q (Prim2SF x) = Some v /\
    Qle (Qabs (Qminus (inject_Z n) v)) (Qmake 1 2).

(** What [k] right shifts leave of [M]: the mantissa is the quotient by
    [2^k] rounded down, and a set round or sticky bit means that
    something was lost. *)
Definition shifted (M k : Z) (mrs : shr_record) : Prop :=
  (0 <= shr_m mrs)%Z /\ (shr_m mrs * 2 ^ k <= M)%Z /\
  (loc_of_shr_record mrs <> loc_Exact -> shr_m mrs * 2 ^ k < M)%Z.

(** A normalised sample: [0.0 <= s && s <= 1.0]. *)
Definition normalized (s : float) : Prop :=
  (0 <=? s)%float = true /\ (s <=? 1)%float = true.

(** ** The image container *)

(** The members of [Image] that [RGBAImage.h] reads and writes. *)
Record Image : Type := mkImage {
  mWide : nat;
  mHigh : nat;
  mNumPixels : nat;
  mNumChannels : nat;
  mChannels : list (list float)
}.

Definition with_channels (im : Image) (chs : list (list float)) : Image :=
  mkImage (mWide im) (mHigh im) (mNumPixels im) (mNumChannels im) chs.

(** Modelled from the spec: [Image.h], the channel-array container, is
    not among the sources.  Its constructor takes (width, height,
    channel count, zero-initialise) and owns one buffer of width×height
    samples per channel; without zero-initialisation the buffers hold
    whatever the allocator left there, [junk c p] for sample [p] of
    channel [c]. *)
Definition Image_new (junk : nat -> nat -> float)
    (inWidth inHeight inNumChannels : nat) (inStartZero : bool) : Image :=
  let numPixels := inWidth * inHeight in
  mkImage inWidth inHeight numPixels inNumChannels
    ((fun c => if inStartZero
               then replicate numPixels 0%float
               else Arr.alloc (junk c) numPixels) <$> seq 0 inNumChannels).

(** Modelled from the spec: [Image::getWidth()], an accessor of the
    container in [Image.h]. *)
Definition getWidth (im : Image) : nat := mWide im.

(** Modelled from the spec: [Image::getHeight()], as above. *)
Definition getHeight (im : Image) : nat := mHigh im.

(** Modelled from the spec: [Image::getNumChannels()], as above. *)
Definition getNumChannels (im : Image) : nat := mNumChannels im.

(** Modelled from the spec: [Image::getChannel( c )] hands out the
    buffer of channel [c]. *)
Definition getChannel (im : Image) (c : nat) : option (list float) :=
  Arr.read (mChannels im) c.

(** [ch[p] = v] where [ch] is the buffer of channel [c]: the buffer is
    shared with the image, so the write shows in its channel table. *)
Definition poke (chs : list (list float)) (c p : nat) (v : float)
    : option (list (list float)) :=
  ch ← Arr.read chs c;
  ch' ← Arr.write ch p v;
  Arr.write chs c ch'.

(** The container's invariant: the pixel count is width×height and
    there is one buffer of that length per channel. *)
Definition Image_wf (im : Image) : Prop :=
  mNumPixels im = mWide im * mHigh im /\
  length (mChannels im) = mNumChannels im /\
  Forall (fun ch => length ch = mNumPixels im) (mChannels im).

(** Cell [p] of buffer [c] of a channel table, when both exist. *)
Definition cell (chs : list (list float)) (c p : nat) : option float :=
  ch ← chs !! c; ch !! p.

(** Sample [p] of channel [c] of an image. *)
Definition sample (im : Image) (c p : nat) : option float :=
  cell (mChannels im) c p.

(** A channel table of [n] buffers of [len] samples each. *)
Definition shape (n len : nat) (chs : list (list float)) : Prop :=
  length chs = n /\ Forall (fun ch => length ch = len) chs.

(** ** Encoder: [RGBAImage::getRGBABytes( Image *inImage )] *)

(** One iteration of the loop of the [numChannels > 3] branch; the
    state is the write cursor [i] and the output buffer. *)
Definition encode_pixel4 (channelZero channelOne channelTwo channelThree : list float)
    (p : nat) (st : nat * list byte) : option (nat * list byte) :=
  let '(i, bytes) := st in
  s ← Arr.read channelZero p; b ← sample_to_byte s;
  bytes ← Arr.write bytes i b; let i := Datatypes.S i in
  s ← Arr.read channelOne p; b ← sample_to_byte s;
  bytes ← Arr.write bytes i b; let i := Datatypes.S i in
  s ← Arr.read channelTwo p; b ← sample_to_byte s;
  bytes ← Arr.write bytes i b; let i := Datatypes.S i in
  s ← Arr.read channelThree p; b ← sample_to_byte s;
  bytes ← Arr.write bytes i b; let i := Datatypes.S i in
  Some (i, bytes).

(** One iteration of the loop of the other branch. *)
Definition encode_pixel3 (channelZero channelOne channelTwo : list float)
    (p : nat) (st : nat * list byte) : option (nat * list byte) :=
  let '(i, bytes) := st in
  s ← Arr.read channelZero p; b ← sample_to_byte s;
  bytes ← Arr.write bytes i b; let i := Datatypes.S i in
  s ← Arr.read channelOne p; b ← sample_to_byte s;
  bytes ← Arr.write bytes i b; let i := Datatypes.S i in
  s ← Arr.read channelTwo p; b ← sample_to_byte s;
  bytes ← Arr.write bytes i b; let i := Datatypes.S i in
  bytes ← Arr.write bytes i xff; let i := Datatypes.S i in
  Some (i, bytes).

(** The static encoder.  [junk] is the content of the fresh output
    buffer before the loop fills it. *)
Definition getRGBABytes_static (junk : nat -> byte) (inImage : Image)
    : option (list byte) :=
  let numPixels := getWidth inImage * getHeight inImage in
  let numChannels := getNumChannels inImage in
  let numBytes := numPixels * 4 in
  let bytes := Arr.alloc junk numBytes in
  channelZero ← getChannel inImage 0;
  channelOne ← getChannel inImage 1;
  channelTwo ← getChannel inImage 2;
  if decide (3 < numChannels) then
    channelThree ← getChannel inImage 3;
    st ← for_loop numPixels 0
          (encode_pixel4 channelZero channelOne channelTwo channelThree)
          (0, bytes);
    Some (snd st)
  else
    st ← for_loop numPixels 0
          (encode_pixel3 channelZero channelOne channelTwo)
          (0, bytes);
    Some (snd st).

(** The member [RGBAImage::getRGBABytes()]: [this] handed to the static
    encoder. *)
Definition getRGBABytes (junk : nat -> byte) (this : Image) : option (list byte) :=
  getRGBABytes_static junk this.

(** The bytes the encoder is to produce for pixel [p] from the listed
    channel buffers, one byte per buffer. *)
Definition pixel_bytes (chans : list (list float)) (p : nat) : option (list byte) :=
  mapM (fun ch => s ← ch !! p; sample_to_byte s) chans.

(** The encoder's output as one expression: per pixel the bytes of
    channels 0..3, or of channels 0..2 followed by 255. *)
Definition encoded (im : Image) : option (list byte) :=
  let numPixels := mWide im * mHigh im in
  c0 ← mChannels im !! 0;
  c1 ← mChannels im !! 1;
  c2 ← mChannels im !! 2;
  if decide (3 < mNumChannels im) then
    c3 ← mChannels im !! 3;
    @concat byte <$> mapM (pixel_bytes [c0; c1; c2; c3]) (seq 0 numPixels)
  else
    @concat byte <$> mapM (fun p => (.++ [xff]) <$> pixel_bytes [c0; c1; c2] p)
                 (seq 0 numPixels).

(** ** Decoder: [RGBAImage::getImageFromBytes] *)

(** In the three branches the row loop carries [outputRow] next to the
    channel table; [channelOne], ..., [channels[i]] are the buffers of
    the fresh image, so a store through them is a [poke]. *)

(** Body of the [x] loop, [inNumChannels == 3]. *)
Definition decode_pixel3 (inBytes : list byte) (inWidth outputRow y x : nat)
    (chs : list (list float)) : option (list (list float)) :=
  let outputPixelIndex := outputRow * inWidth + x in
  let regionPixelIndex := y * inWidth + x in
  let byteIndex := regionPixelIndex * 3 in
  b ← Arr.read inBytes byteIndex; let byteIndex := Datatypes.S byteIndex in
  chs ← poke chs 0 outputPixelIndex (byte_to_sample b);
  b ← Arr.read inBytes byteIndex; let byteIndex := Datatypes.S byteIndex in
  chs ← poke chs 1 outputPixelIndex (byte_to_sample b);
  b ← Arr.read inBytes byteIndex;
  poke chs 2 outputPixelIndex (byte_to_sample b).

(** Body of the [x] loop, [inNumChannels == 4]. *)
Definition decode_pixel4 (inBytes : list byte) (inWidth outputRow y x : nat)
    (chs : list (list float)) : option (list (list float)) :=
  let outputPixelIndex := outputRow * inWidth + x in
  let regionPixelIndex := y * inWidth + x in
  let byteIndex := regionPixelIndex * 4 in
  b ← Arr.read inBytes byteIndex; let byteIndex := Datatypes.S byteIndex in
  chs ← poke chs 0 outputPixelIndex (byte_to_sample b);
  b ← Arr.read inBytes byteIndex; let byteIndex := Datatypes.S byteIndex in
  chs ← poke chs 1 outputPixelIndex (byte_to_sample b);
  b ← Arr.read inBytes byteIndex; let byteIndex := Datatypes.S byteIndex in
  chs ← poke chs 2 outputPixelIndex (byte_to_sample b);
  b ← Arr.read inBytes byteIndex;
  poke chs 3 outputPixelIndex (byte_to_sample b).

(** Body of the loop over the channels of one pixel, other channel
    counts; the state is [byteIndex] and the channel table. *)
Definition decode_channel (inBytes : list byte) (outputPixelIndex i : nat)
    (st : nat * list (list float)) : option (nat * list (list float)) :=
  let '(byteIndex, chs) := st in
  b ← Arr.read inBytes byteIndex;
  chs ← poke chs i outputPixelIndex (byte_to_sample b);
  Some (Datatypes.S byteIndex, chs).

(** Body of the [x] loop, other channel counts. *)
Definition decode_pixelN (inBytes : list byte) (inNumChannels : nat)
    (inWidth outputRow y x : nat)
    (chs : list (list float)) : option (list (list float)) :=
  let outputPixelIndex := outputRow * inWidth + x in
  let regionPixelIndex := y * inWidth + x in
  let byteIndex := regionPixelIndex * inNumChannels in
  st ← for_loop inNumChannels 0 (decode_channel inBytes outputPixelIndex)
        (byteIndex, chs);
  Some (snd st).

(** The [y] loop around a pixel body; [outputRow] starts at 0 and is
    incremented after each row. *)
Definition decode_rows
    (pixel : forall (inWidth outputRow y x : nat),
               list (list float) -> option (list (list float)))
    (inWidth inHeight : nat) (chs : list (list float))
    : option (list (list float)) :=
  st ← for_loop inHeight 0
        (fun y '(outputRow, chs) =>
           chs ← for_loop inWidth 0 (pixel inWidth outputRow y) chs;
           Some (Datatypes.S outputRow, chs))
        (0, chs);
  Some (snd st).

(** The [else] branch taken on its own, for any channel count. *)
Definition getImageFromBytes_general (junk : nat -> nat -> float)
    (inBytes : list byte) (inWidth inHeight inNumChannels : nat)
    : option Image :=
  let im := Image_new junk inWidth inHeight inNumChannels false in
  chs ← decode_rows (decode_pixelN inBytes inNumChannels)
         inWidth inHeight (mChannels im);
  Some (with_channels im chs).

(** The decoder.  [junk] is the content of the fresh image's buffers
    before the loops fill them. *)
Definition getImageFromBytes (junk : nat -> nat -> float)
    (inBytes : list byte) (inWidth inHeight inNumChannels : nat)
    : option Image :=
  let im := Image_new junk inWidth inHeight inNumChannels false in
  if decide (inNumChannels = 3) then
    chs ← decode_rows (decode_pixel3 inBytes) inWidth inHeight (mChannels im);
    Some (with_channels im chs)
  else if decide (inNumChannels = 4) then
    chs ← decode_rows (decode_pixel4 inBytes) inWidth inHeight (mChannels im);
    Some (with_channels im chs)
  else
    chs ← decode_rows (decode_pixelN inBytes inNumChannels)
           inWidth inHeight (mChannels im);
    Some (with_channels im chs).

(** What the decoder is to store for channel [c] of pixel [p] of an
    [n]-channel buffer: byte [p * n + c], scaled. *)
Definition decoded (inBytes : list byte) (n c p : nat) : option float :=
  byte_to_sample <$> inBytes !! (p * n + c).

(** ** The RGBA image type *)

(** An [RGBAImage] is an [Image] built with four channels. *)

(** [RGBAImage::RGBAImage( int inWidth, int inHeight )]. *)
Definition RGBAImage_new (inWidth inHeight : nat) : Image :=
  Image_new (fun _ _ => 0%float) inWidth inHeight 4 true.

(** [RGBAImage::RGBAImage( Image *inImage )].  The base constructor
    zeroes the buffers only when [inImage] has fewer than 4 channels;
    otherwise they start as [junk]. *)
Definition RGBAImage_of_Image (junk : nat -> nat -> float) (inImage : Image)
    : option Image :=
  let this := Image_new junk (getWidth inImage) (getHeight inImage) 4
                (bool_decide (getNumChannels inImage < 4)) in
  let minNumChannels := 4 in
  let minNumChannels :=
    if decide (getNumChannels inImage < minNumChannels)
    then getNumChannels inImage else minNumChannels in
  chs ← for_loop minNumChannels 0
         (fun c chs =>
            inChannel ← getChannel inImage c;
            dst ← Arr.read chs c;
            dst' ← Arr.memcpy dst inChannel (mNumPixels this);
            Arr.write chs c dst')
         (mChannels this);
  if decide (minNumChannels < 4) then
    chs ← for_loop (mNumPixels this) 0 (fun i chs => poke chs 3 i 1%float) chs;
    Some (with_channels this chs)
  else
    Some (with_channels this chs).

(** Modelled from the spec: a [ChannelFilter] (declared outside
    [RGBAImage.h]) is an opaque capability applied to one channel
    buffer at a time, given the image's width and height.  It may keep
    state of its own between calls, [F] here. *)
Definition ChannelFilter (F : Type) : Type :=
  F -> list float -> nat -> nat -> F * list float.

(** Modelled from the spec: [Image::filter( inFilter, inChannel )]
    applies the filter to exactly the named channel. *)
Definition Image_filter {F} (inFilter : ChannelFilter F) (inChannel : nat)
    (st : F * Image) : option (F * Image) :=
  let '(f, im) := st in
  ch ← getChannel im inChannel;
  let '(f', ch') := inFilter f ch (mWide im) (mHigh im) in
  chs ← Arr.write (mChannels im) inChannel ch';
  Some (f', with_channels im chs).

(** [RGBAImage::filter( ChannelFilter *inFilter )]. *)
Definition RGBAImage_filter {F} (inFilter : ChannelFilter F)
    (st : F * Image) : option (F * Image) :=
  for_loop (mNumChannels (snd st) - 1) 0
    (fun i st => Image_filter inFilter i st) st.

(** [RGBAImage::filter( ChannelFilter *inFilter, int inChannel )]. *)
Definition RGBAImage_filter_channel {F} (inFilter : ChannelFilter F)
    (inChannel : nat) (st : F * Image) : option (F * Image) :=
  Image_filter inFilter inChannel st.

(** A packed RGB buffer with an opaque alpha byte put after every pixel:
    [r g b r g b ...] becomes [r g b 255 r g b 255 ...]. *)
Fixpoint with_opaque_alpha (rgb : list byte) : list byte :=
  match rgb with
  | r :: g :: b :: rest => r :: g :: b :: xff :: with_opaque_alpha rest
  | _ => []
  end.

(** A 1×1 image with the given sample in each of its channels. *)
Definition img1x1 (ss : list float) : Image :=
  mkImage 1 1 1 (length ss) ((fun s => [s]) <$> ss).

(** * Properties *)

(** ** Loops *)

Lemma for_loop_ext {S : Type} (f g : nat -> S -> option S) count from s :
  (forall i s, from <= i < from + count -> f i s = g i s) ->
  for_loop count from f s = for_loop count from g s.
Proof.
  revert from s. induction count as [|k IH]; intros from s Hfg; [done|].
  simpl. rewrite Hfg by lia. destruct (g from s) as [s'|]; [|done].
  simpl. apply IH. intros i t Hi. apply Hfg. lia.
Qed.

(** A loop whose body keeps an invariant runs to completion. *)
Lemma for_loop_inv {S : Type} (I : nat -> S -> Prop)
    (body : nat -> S -> option S) count from s :
  I from s ->
  (forall i t, from <= i < from + count -> I i t ->
     exists t', body i t = Some t' /\ I (Datatypes.S i) t') ->
  exists s', for_loop count from body s = Some s' /\ I (from + count) s'.
Proof.
  revert from s. induction count as [|k IH]; intros from s H0 Hstep.
  - exists s. rewrite Nat.add_0_r. done.
  - destruct (Hstep from s) as (t & Ht & HI); [lia | done |].
    destruct (IH (Datatypes.S from) t HI) as (s' & Hs' & HI').
    { intros i u Hi. apply Hstep. lia. }
    exists s'. simpl. rewrite Ht. simpl.
    replace (from + Datatypes.S k) with (Datatypes.S from + k) by lia. done.
Qed.

(** ** Arrays and channel tables *)

Lemma write_Some {A} (a : list A) i v :
  i < length a -> Arr.write a i v = Some (<[i := v]> a).
Proof. intros H. unfold Arr.write. by rewrite decide_True. Qed.

Lemma shape_lookup n len chs c :
  shape n len chs -> c < n -> exists ch, chs !! c = Some ch /\ length ch = len.
Proof.
  intros [Hn Hall] Hc.
  destruct (lookup_lt_is_Some_2 chs c) as [ch Hch]; [lia|].
  exists ch. split; [done|].
  by apply (proj1 (Forall_lookup _ _) Hall c ch).
Qed.

Lemma shape_insert n len chs c ch :
  shape n len chs -> length ch = len -> shape n len (<[c := ch]> chs).
Proof.
  intros [Hn Hall] Hch. split.
  - by rewrite length_insert.
  - by apply Forall_insert.
Qed.

Lemma cell_insert chs c ch c' p' :
  c < length chs ->
  cell (<[c := ch]> chs) c' p' = if decide (c' = c) then ch !! p' else cell chs c' p'.
Proof.
  intros Hc. unfold cell. destruct (decide (c' = c)) as [->|Hne].
  - by rewrite list_lookup_insert_eq.
  - by rewrite list_lookup_insert_ne.
Qed.

(** A store into a buffer of a well-shaped table succeeds, changes that
    one cell and keeps the shape. *)
Lemma poke_spec n len chs c p v :
  shape n len chs -> c < n -> p < len ->
  exists chs', poke chs c p v = Some chs' /\ shape n len chs' /\
    forall c' p', cell chs' c' p' =
      if decide (c' = c /\ p' = p) then Some v else cell chs c' p'.
Proof.
  intros Hsh Hc Hp.
  destruct (shape_lookup _ _ _ _ Hsh Hc) as (ch & Hch & Hlen).
  exists (<[c := <[p := v]> ch]> chs).
  assert (Hlc : c < length chs) by (destruct Hsh; lia).
  split; [|split].
  - unfold poke, Arr.read. rewrite Hch. simpl.
    rewrite write_Some by lia. simpl. by rewrite write_Some.
  - apply shape_insert; [done|]. by rewrite length_insert.
  - intros c' p'. rewrite cell_insert by done.
    destruct (decide (c' = c)) as [->|Hne].
    + destruct (decide (p' = p)) as [->|Hnp].
      * rewrite decide_True by done. apply list_lookup_insert_eq. lia.
      * rewrite decide_False by tauto. rewrite list_lookup_insert_ne by done.
        unfold cell. by rewrite Hch.
    + by rewrite decide_False by tauto.
Qed.

Lemma Image_new_shape junk w h n z :
  shape n (w * h) (mChannels (Image_new junk w h n z)).
Proof.
  unfold Image_new, shape. simpl. split.
  - by rewrite length_fmap, length_seq.
  - apply Forall_fmap, Forall_forall. intros c _. simpl.
    destruct z; [apply length_replicate|].
    unfold Arr.alloc. by rewrite length_fmap, length_seq.
Qed.

(** ** Decoder *)

(** The unrolled bodies are the channel loop run for 3 and 4 channels. *)
Lemma decode_pixel3_general inBytes inWidth outputRow y x chs :
  decode_pixel3 inBytes inWidth outputRow y x chs =
  decode_pixelN inBytes 3 inWidth outputRow y x chs.
Proof.
  unfold decode_pixel3, decode_pixelN. simpl. unfold decode_channel.
  repeat (match goal with
          | |- context [Arr.read ?a ?i] => destruct (Arr.read a i); simpl; [|done]
          | |- context [poke ?a ?c ?i ?v] => destruct (poke a c i v); simpl; [|done]
          end).
  done.
Qed.

Lemma decode_pixel4_general inBytes inWidth outputRow y x chs :
  decode_pixel4 inBytes inWidth outputRow y x chs =
  decode_pixelN inBytes 4 inWidth outputRow y x chs.
Proof.
  unfold decode_pixel4, decode_pixelN. simpl. unfold decode_channel.
  repeat (match goal with
          | |- context [Arr.read ?a ?i] => destruct (Arr.read a i); simpl; [|done]
          | |- context [poke ?a ?c ?i ?v] => destruct (poke a c i v); simpl; [|done]
          end).
  done.
Qed.

Lemma decode_rows_ext pixel pixel' inWidth inHeight chs :
  (forall w r y x t, pixel w r y x t = pixel' w r y x t) ->
  decode_rows pixel inWidth inHeight chs = decode_rows pixel' inWidth inHeight chs.
Proof.
  intros Hpx. unfold decode_rows. f_equal.
  apply for_loop_ext. intros y [r t] _.
  f_equal. apply for_loop_ext. intros x u _. apply Hpx.
Qed.

Section DecodeInvariant.

Variables (inBytes : list byte) (n len : nat).

Local Abbreviation decoded := (decoded inBytes n).

Lemma decode_channels_spec q m i0 bi chs :
  shape n len chs -> q < len -> i0 + m <= n -> bi + m <= length inBytes ->
  exists chs',
    for_loop m i0 (decode_channel inBytes q) (bi, chs) = Some (bi + m, chs') /\
    shape n len chs' /\
    forall c p, cell chs' c p =
      if decide (p = q /\ i0 <= c < i0 + m)
      then byte_to_sample <$> inBytes !! (bi + (c - i0))
      else cell chs c p.
Proof.
  intros Hsh Hq Hm Hb.
  destruct (for_loop_inv
    (fun i st => fst st = bi + (i - i0) /\ shape n len (snd st) /\
       forall c p, cell (snd st) c p =
         if decide (p = q /\ i0 <= c < i)
         then byte_to_sample <$> inBytes !! (bi + (c - i0))
         else cell chs c p)
    (decode_channel inBytes q) m i0 (bi, chs)) as ([bi' chs'] & Hrun & Hbi & Hsh' & Hcell).
  - simpl. split; [lia|]. split; [done|].
    intros c p. rewrite decide_False by lia. done.
  - intros i [b t] Hi (Hb' & Ht & Hc). simpl in *. subst b.
    destruct (lookup_lt_is_Some_2 inBytes (bi + (i - i0))) as [v Hv]; [lia|].
    destruct (poke_spec n len t i q (byte_to_sample v) Ht) as (t' & Hp & Ht' & Hc'); [lia|done|].
    exists (Datatypes.S (bi + (i - i0)), t'). split; [|split; [|split]].
    + unfold Arr.read. rewrite Hv. simpl. rewrite Hp. done.
    + simpl. lia.
    + done.
    + intros c p. simpl. rewrite Hc', Hc.
      destruct (decide (c = i /\ p = q)) as [[-> ->]|Hne].
      * rewrite decide_True by lia. by rewrite Hv.
      * destruct (decide (p = q /\ i0 <= c < i)) as [H1|H1].
        -- rewrite decide_True by lia. done.
        -- rewrite decide_False by lia. done.
  - simpl in *. subst bi'. exists chs'.
    replace (bi + (i0 + m - i0)) with (bi + m) in Hrun by lia. done.
Qed.

Lemma decode_pixelN_spec inWidth y x chs :
  shape n len chs -> y * inWidth + x < len ->
  (y * inWidth + x) * n + n <= length inBytes ->
  exists chs',
    decode_pixelN inBytes n inWidth y y x chs = Some chs' /\
    shape n len chs' /\
    forall c p, cell chs' c p =
      if decide (p = y * inWidth + x /\ c < n) then decoded c p else cell chs c p.
Proof.
  intros Hsh Hq Hb.
  destruct (decode_channels_spec (y * inWidth + x) n 0 ((y * inWidth + x) * n) chs)
    as (chs' & Hrun & Hsh' & Hc); [done|done|lia|done|].
  exists chs'. split; [|split; [done|]].
  - unfold decode_pixelN. rewrite Hrun. done.
  - intros c p. rewrite Hc. unfold decoded.
    destruct (decide (p = y * inWidth + x /\ c < n)) as [[-> H1]|H1].
    + rewrite decide_True by lia. by rewrite Nat.sub_0_r.
    + rewrite decide_False by lia. done.
Qed.

Lemma decode_row_spec inWidth inHeight y chs :
  len = inWidth * inHeight -> shape n len chs -> y < inHeight ->
  inWidth * inHeight * n <= length inBytes ->
  exists chs',
    for_loop inWidth 0 (decode_pixelN inBytes n inWidth y y) chs = Some chs' /\
    shape n len chs' /\
    forall c p, cell chs' c p =
      if decide (c < n /\ y * inWidth <= p < y * inWidth + inWidth)
      then decoded c p else cell chs c p.
Proof.
  intros Hlen Hsh Hy Hb.
  destruct (for_loop_inv
    (fun x t => shape n len t /\
       forall c p, cell t c p =
         if decide (c < n /\ y * inWidth <= p < y * inWidth + x)
         then decoded c p else cell chs c p)
    (decode_pixelN inBytes n inWidth y y) inWidth 0 chs) as (chs' & Hrun & Hsh' & Hc).
  - split; [done|]. intros c p. rewrite decide_False by lia. done.
  - intros x t Hx (Ht & Hc).
    destruct (decode_pixelN_spec inWidth y x t Ht) as (t' & Hp & Ht' & Hc').
    { subst len. nia. }
    { assert ((y * inWidth + x + 1) * n <= inWidth * inHeight * n) by (apply Nat.mul_le_mono_r; nia). lia. }
    exists t'. split; [done|]. split; [done|].
    intros c p. rewrite Hc', Hc.
    destruct (decide (p = y * inWidth + x /\ c < n)) as [[-> H1]|H1].
    + rewrite decide_True by lia. done.
    + destruct (decide (c < n /\ y * inWidth <= p < y * inWidth + x)) as [H2|H2].
      * rewrite decide_True by lia. done.
      * rewrite decide_False by lia. done.
  - exists chs'. done.
Qed.

Lemma decode_rows_spec inWidth inHeight chs :
  len = inWidth * inHeight -> shape n len chs ->
  inWidth * inHeight * n <= length inBytes ->
  exists chs',
    decode_rows (decode_pixelN inBytes n) inWidth inHeight chs = Some chs' /\
    shape n len chs' /\
    forall c p, c < n -> p < len -> cell chs' c p = decoded c p.
Proof.
  intros Hlen Hsh Hb. unfold decode_rows.
  destruct (for_loop_inv
    (fun y st => fst st = y /\ shape n len (snd st) /\
       forall c p, cell (snd st) c p =
         if decide (c < n /\ p < y * inWidth)
         then decoded c p else cell chs c p)
    (fun y '(outputRow, chs) =>
       chs ← for_loop inWidth 0 (decode_pixelN inBytes n inWidth outputRow y) chs;
       Some (Datatypes.S outputRow, chs))
    inHeight 0 (0, chs)) as ([r chs'] & Hrun & Hr & Hsh' & Hc).
  - simpl. split; [done|]. split; [done|].
    intros c p. rewrite decide_False by lia. done.
  - intros y [r t] Hy (Hr & Ht & Hc). simpl in *. subst r.
    destruct (decode_row_spec inWidth inHeight y t Hlen Ht) as (t' & Hp & Ht' & Hc'); [lia|done|].
    exists (Datatypes.S y, t'). rewrite Hp. simpl.
    split; [done|]. split; [done|]. split; [done|].
    intros c p. rewrite Hc', Hc.
    destruct (decide (c < n /\ y * inWidth <= p < y * inWidth + inWidth)) as [H1|H1].
    + rewrite decide_True by lia. done.
    + destruct (decide (c < n /\ p < y * inWidth)) as [H2|H2].
      * rewrite decide_True by lia. done.
      * rewrite decide_False by lia. done.
  - rewrite Hrun. simpl in *. exists chs'. split; [done|]. split; [done|].
    intros c p Hcn Hp. rewrite Hc. rewrite decide_True by lia. done.
Qed.

End DecodeInvariant.

(** Every path of the decoder is the general one. *)
Lemma getImageFromBytes_general_eq junk inBytes inWidth inHeight inNumChannels :
  getImageFromBytes junk inBytes inWidth inHeight inNumChannels =
  getImageFromBytes_general junk inBytes inWidth inHeight inNumChannels.
Proof.
  unfold getImageFromBytes, getImageFromBytes_general.
  destruct (decide (inNumChannels = 3)) as [->|H3];
    [|destruct (decide (inNumChannels = 4)) as [->|H4]]; [| |done].
  - by rewrite (decode_rows_ext _ _ _ _ _ (fun w => decode_pixel3_general inBytes w)).
  - by rewrite (decode_rows_ext _ _ _ _ _ (fun w => decode_pixel4_general inBytes w)).
Qed.

Lemma with_channels_wf im chs :
  mNumPixels im = mWide im * mHigh im ->
  shape (mNumChannels im) (mNumPixels im) chs ->
  Image_wf (with_channels im chs).
Proof. intros Hpx [Hn Hall]. unfold Image_wf. simpl. done. Qed.

(** What the decoder returns on a buffer that covers the image. *)
Lemma getImageFromBytes_spec junk inBytes inWidth inHeight inNumChannels :
  inWidth * inHeight * inNumChannels <= length inBytes ->
  exists im,
    getImageFromBytes junk inBytes inWidth inHeight inNumChannels = Some im /\
    mWide im = inWidth /\ mHigh im = inHeight /\
    mNumChannels im = inNumChannels /\ Image_wf im /\
    forall c p, c < inNumChannels -> p < inWidth * inHeight ->
      sample im c p = decoded inBytes inNumChannels c p.
Proof.
  intros Hb. rewrite getImageFromBytes_general_eq.
  unfold getImageFromBytes_general.
  destruct (decode_rows_spec inBytes inNumChannels (inWidth * inHeight)
              inWidth inHeight
              (mChannels (Image_new junk inWidth inHeight inNumChannels false)))
    as (chs & Hrun & Hsh & Hc); [done|apply Image_new_shape|done|].
  rewrite Hrun. simpl. eexists. split; [done|].
  repeat split; try done.
  - apply Hsh.
  - apply Hsh.
Qed.

(** ** Encoder *)

Lemma insert4 {A} (l : list A) i a b c d :
  i + 4 <= length l ->
  <[Datatypes.S (Datatypes.S (Datatypes.S i)) := d]>
    (<[Datatypes.S (Datatypes.S i) := c]> (<[Datatypes.S i := b]> (<[i := a]> l))) =
  take i l ++ [a; b; c; d] ++ drop (i + 4) l.
Proof.
  revert l. induction i as [|i IH]; intros l Hl.
  - destruct l as [|x0 [|x1 [|x2 [|x3 l]]]]; simpl in *; try lia. done.
  - destruct l as [|x l]; simpl in *; [lia|].
    f_equal. apply IH. lia.
Qed.

Lemma write4 (bytes : list byte) i a b c d :
  i + 4 <= length bytes ->
  (b1 ← Arr.write bytes i a;
   b2 ← Arr.write b1 (Datatypes.S i) b;
   b3 ← Arr.write b2 (Datatypes.S (Datatypes.S i)) c;
   Arr.write b3 (Datatypes.S (Datatypes.S (Datatypes.S i))) d) =
  Some (take i bytes ++ [a; b; c; d] ++ drop (i + 4) bytes).
Proof.
  intros Hl.
  rewrite write_Some by lia. simpl.
  rewrite write_Some by (rewrite length_insert; lia). simpl.
  rewrite write_Some by (rewrite !length_insert; lia). simpl.
  rewrite write_Some by (rewrite !length_insert; lia).
  by rewrite insert4.
Qed.

(** A read or a conversion that fails makes the whole pixel fail,
    whichever stores came before it. *)
Ltac encode_step X :=
  destruct X; simpl;
  [| try done;
     repeat (match goal with
             | |- context [Arr.write ?b ?i ?v] => destruct (Arr.write b i v); simpl
             end);
     done].

Lemma encode_pixel4_spec c0 c1 c2 c3 p i (bytes : list byte) :
  i + 4 <= length bytes ->
  encode_pixel4 c0 c1 c2 c3 p (i, bytes) =
  q ← pixel_bytes [c0; c1; c2; c3] p;
  Some (i + 4, take i bytes ++ q ++ drop (i + 4) bytes).
Proof.
  intros Hl. unfold encode_pixel4, pixel_bytes, Arr.read. simpl.
  encode_step (c0 !! p). encode_step (sample_to_byte f).
  encode_step (c1 !! p). encode_step (sample_to_byte f0).
  encode_step (c2 !! p). encode_step (sample_to_byte f1).
  encode_step (c3 !! p). encode_step (sample_to_byte f2).
  pose proof (write4 bytes i b b0 b1 b2 Hl) as Hw.
  destruct (Arr.write bytes i b) as [t0|]; simpl in *; [|done].
  destruct (Arr.write t0 _ b0) as [t1|]; simpl in *; [|done].
  destruct (Arr.write t1 _ b1) as [t2|]; simpl in *; [|done].
  rewrite Hw. simpl. do 2 f_equal. lia.
Qed.

Lemma encode_pixel3_spec c0 c1 c2 p i (bytes : list byte) :
  i + 4 <= length bytes ->
  encode_pixel3 c0 c1 c2 p (i, bytes) =
  q ← (.++ [xff]) <$> pixel_bytes [c0; c1; c2] p;
  Some (i + 4, take i bytes ++ q ++ drop (i + 4) bytes).
Proof.
  intros Hl. unfold encode_pixel3, pixel_bytes, Arr.read. simpl.
  encode_step (c0 !! p). encode_step (sample_to_byte f).
  encode_step (c1 !! p). encode_step (sample_to_byte f0).
  encode_step (c2 !! p). encode_step (sample_to_byte f1).
  pose proof (write4 bytes i b b0 b1 xff Hl) as Hw.
  destruct (Arr.write bytes i b) as [t0|]; simpl in *; [|done].
  destruct (Arr.write t0 _ b0) as [t1|]; simpl in *; [|done].
  destruct (Arr.write t1 _ b1) as [t2|]; simpl in *; [|done].
  rewrite Hw. simpl. do 2 f_equal. lia.
Qed.

Lemma pixel_bytes_length chans p q :
  pixel_bytes chans p = Some q -> length q = length chans.
Proof. intros H. symmetry. by eapply length_mapM. Qed.

(** The pixel loop, for either body: it fills the buffer, four bytes a
    pixel, from the cursor on. *)
Lemma encode_loop_spec (f : nat -> option (list byte))
    (body : nat -> nat * list byte -> option (nat * list byte)) :
  (forall p q, f p = Some q -> length q = 4) ->
  (forall p i bytes, i + 4 <= length bytes ->
     body p (i, bytes) =
     q ← f p; Some (i + 4, take i bytes ++ q ++ drop (i + 4) bytes)) ->
  forall count p0 bytes, 4 * (p0 + count) <= length bytes ->
    for_loop count p0 body (4 * p0, bytes) =
    quads ← mapM f (seq p0 count);
    Some (4 * (p0 + count),
          take (4 * p0) bytes ++ concat quads ++ drop (4 * (p0 + count)) bytes).
Proof.
  intros Hlen Hbody. induction count as [|k IH]; intros p0 bytes Hl.
  - cbn [for_loop seq mapM mret option_ret mbind option_bind concat app]. rewrite Nat.add_0_r, take_drop. done.
  - cbn [for_loop seq mapM mret option_ret mbind option_bind].
    rewrite Hbody by lia.
    destruct (f p0) as [q|] eqn:Hq; cbn [mbind option_bind]; [|done].
    pose proof (Hlen _ _ Hq) as Hq4.
    assert (Htl : length (take (4 * p0) bytes) = 4 * p0)
      by (rewrite length_take; lia).
    replace (4 * p0 + 4) with (4 * Datatypes.S p0) by lia.
    rewrite IH.
    2:{ rewrite !length_app, length_drop, Htl. lia. }
    destruct (mapM f (seq (Datatypes.S p0) k)) as [quads|];
      cbn [mbind option_bind concat]; [|done].
    replace (Datatypes.S p0 + k) with (p0 + Datatypes.S k) by lia.
    cbn [mret option_ret mbind option_bind concat].
    do 2 f_equal.
    rewrite (app_assoc (take _ bytes) q).
    rewrite take_app_length' by (rewrite length_app, Htl; lia).
    rewrite drop_app_ge by (rewrite length_app, Htl; lia).
    rewrite drop_drop, length_app, Htl, Hq4.
    replace (4 * Datatypes.S p0 + (4 * (p0 + Datatypes.S k) - (4 * p0 + 4)))
      with (4 * (p0 + Datatypes.S k)) by lia.
    by rewrite <- !app_assoc.
Qed.

Lemma alloc_length {A} (junk : nat -> A) n : length (Arr.alloc junk n) = n.
Proof. unfold Arr.alloc. by rewrite length_fmap, length_seq. Qed.

(** The encoder computes [encoded], whatever the fresh buffer held. *)
Lemma getRGBABytes_static_encoded junk im :
  getRGBABytes_static junk im = encoded im.
Proof.
  unfold getRGBABytes_static, encoded, getChannel, getWidth, getHeight,
    getNumChannels, Arr.read.
  destruct (mChannels im !! 0) as [c0|]; cbn [mbind option_bind]; [|done].
  destruct (mChannels im !! 1) as [c1|]; cbn [mbind option_bind]; [|done].
  destruct (mChannels im !! 2) as [c2|]; cbn [mbind option_bind]; [|done].
  set (N := mWide im * mHigh im).
  set (bytes := Arr.alloc junk (N * 4)).
  assert (Hb : 4 * (0 + N) <= length bytes)
    by (unfold bytes; rewrite alloc_length; lia).
  destruct (decide (3 < mNumChannels im)) as [H3|H3].
  - destruct (mChannels im !! 3) as [c3|]; cbn [mbind option_bind]; [|done].
    pose proof (encode_loop_spec (pixel_bytes [c0; c1; c2; c3])
                  (encode_pixel4 c0 c1 c2 c3)) as Hloop.
    change (0, bytes) with (4 * 0, bytes).
    rewrite (Hloop (fun p q H => pixel_bytes_length _ p q H)
               (encode_pixel4_spec c0 c1 c2 c3) N 0 bytes Hb).
    destruct (mapM _ (seq 0 N)) as [quads|] eqn:Hq; [|done].
    pose proof (length_mapM _ _ _ Hq) as Hlq. rewrite length_seq in Hlq.
    cbn [mbind option_bind fmap option_fmap option_map snd]. f_equal.
    rewrite Nat.mul_0_r, take_0, drop_ge, app_nil_r; [done|].
    unfold bytes. rewrite alloc_length. lia.
  - pose proof (encode_loop_spec
                  (fun p => (.++ [xff]) <$> pixel_bytes [c0; c1; c2] p)
                  (encode_pixel3 c0 c1 c2)) as Hloop.
    change (0, bytes) with (4 * 0, bytes).
    rewrite (Hloop) with (count := N) (p0 := 0) (bytes := bytes); [| |apply encode_pixel3_spec|done].
    + destruct (mapM _ (seq 0 N)) as [quads|] eqn:Hq; [|done].
      cbn [mbind option_bind fmap option_fmap option_map snd]. f_equal.
      rewrite Nat.mul_0_r, take_0, drop_ge, app_nil_r; [done|].
      unfold bytes. rewrite alloc_length. lia.
    + intros p q Hq. destruct (pixel_bytes [c0; c1; c2] p) as [q'|] eqn:Hq'; [|done].
      apply pixel_bytes_length in Hq'. simpl in Hq. injection Hq as <-.
      rewrite length_app, Hq'. done.
Qed.

Lemma concat_lookup4 {A} (quads : list (list A)) p k :
  Forall (fun q => length q = 4) quads -> k < 4 ->
  concat quads !! (4 * p + k) = quads !! p ≫= (.!! k).
Proof.
  intros Hall Hk. revert p. induction Hall as [|q quads Hq _ IH]; intros p.
  - done.
  - cbn [concat]. destruct p as [|p].
    + rewrite lookup_app_l by lia. done.
    + rewrite lookup_app_r by lia. rewrite Hq.
      replace (4 * Datatypes.S p + k - 4) with (4 * p + k) by lia.
      apply IH.
Qed.

Lemma concat_length4 {A} (quads : list (list A)) :
  Forall (fun q => length q = 4) quads -> length (concat quads) = 4 * length quads.
Proof.
  induction 1 as [|q quads Hq _ IH]; [done|].
  cbn [concat]. rewrite length_app, Hq, IH. simpl. lia.
Qed.

(** ** Rounding *)

Lemma round_half_even_nearest m d :
  (0 < d)%Z -> (2 * Z.abs (round_half_even m d * d - m) <= d)%Z.
Proof.
  intros Hd. unfold round_half_even.
  pose proof (Z.div_mod m d ltac:(lia)) as Hdm.
  pose proof (Z.mod_pos_bound m d Hd) as Hr.
  destruct (Z.compare_spec (2 * (m mod d)) d) as [H|H|H];
    [destruct (Z.even (m / d))| |]; nia.
Qed.

Lemma round_half_even_bound m d B :
  (0 < d)%Z -> (0 <= m <= B * d)%Z -> (0 <= round_half_even m d <= B)%Z.
Proof.
  intros Hd Hm. unfold round_half_even.
  pose proof (Z.div_mod m d ltac:(lia)) as Hdm.
  pose proof (Z.mod_pos_bound m d Hd) as Hr.
  assert (0 <= m / d)%Z by (apply Z.div_pos; lia).
  assert (m / d <= B)%Z by (apply Z.div_le_upper_bound; lia).
  assert (m / d = B -> m mod d = 0)%Z by nia.
  destruct (Z.compare_spec (2 * (m mod d)) d) as [H'|H'|H'];
    [destruct (Z.even (m / d))| |]; nia.
Qed.

(** [lrint] rounds to a nearest integer. *)
Lemma SF_rint_nearest x n :
  SF_rint x = Some n ->
  exists v : Q, SF2Q x = Some v /\
    Qle (Qabs (Qminus (inject_Z n) v)) (Qmake 1 2).
Proof.
  destruct x as [s|s| |s m e]; simpl; intros H; try done.
  - injection H as <-. eexists. split; [done|]. done.
  - injection H as <-. eexists. split; [done|].
    destruct e as [|e|k].
    + assert (Hz : forall a b : Z, a = b ->
                Qle (Qabs (Qminus (inject_Z a) (inject_Z b))) (Qmake 1 2)).
      { intros a b ->. unfold Qminus. rewrite Qplus_opp_r. done. }
      apply Hz. destruct s; lia.
    + assert (Hz : forall a b : Z, a = b ->
                Qle (Qabs (Qminus (inject_Z a) (inject_Z b))) (Qmake 1 2)).
      { intros a b ->. unfold Qminus. rewrite Qplus_opp_r. done. }
      apply Hz. destruct s; lia.
    + pose proof (round_half_even_nearest (Zpos m) (Zpos (2 ^ k)) ltac:(lia)) as Hn.
      set (r := round_half_even (Zpos m) (Zpos (2 ^ k))) in *.
      unfold Qle, Qabs, Qminus, Qplus, Qopp, inject_Z. simpl.
      destruct s; simpl; lia.
Qed.

Lemma lrint_nearest x n : lrint x = Some n -> nearest_integer n x.
Proof.
  unfold lrint, nearest_integer.
  destruct (SF_rint (Prim2SF x)) as [k|] eqn:Hk; simpl; [|done].
  destruct (decide _); [|done]. intros [= <-].
  by apply SF_rint_nearest.
Qed.

(** ** The binary64 product of a normalised sample and 255 *)

Lemma digits2_pos_bounds m :
  (2 ^ (Zpos (digits2_pos m) - 1) <= Zpos m < 2 ^ Zpos (digits2_pos m))%Z.
Proof.
  induction m as [m IH|m IH|]; cbn [digits2_pos].
  - rewrite Pos2Z.inj_succ.
    replace (Z.succ (Zpos (digits2_pos m)) - 1)%Z
      with (Z.succ (Zpos (digits2_pos m) - 1)) by lia.
    rewrite !Z.pow_succ_r by lia. lia.
  - rewrite Pos2Z.inj_succ.
    replace (Z.succ (Zpos (digits2_pos m)) - 1)%Z
      with (Z.succ (Zpos (digits2_pos m) - 1)) by lia.
    rewrite !Z.pow_succ_r by lia. lia.
  - simpl. lia.
Qed.

(** A number below [2^j·2^a] has at most [j + a] binary digits. *)
Lemma Zdigits2_le M j a :
  (0 <= M)%Z -> (0 <= j)%Z -> (0 <= a)%Z -> (M < 2 ^ j * 2 ^ a)%Z ->
  (Zdigits2 M <= j + a)%Z.
Proof.
  intros HM Hj Ha Hlt. destruct M as [|m|m]; [simpl; lia| |lia].
  cbn [Zdigits2]. pose proof (digits2_pos_bounds m) as [Hlo _].
  rewrite <- Z.pow_add_r in Hlt by lia.
  destruct (Z_lt_le_dec (j + a) (Zpos (digits2_pos m))) as [Hgt|]; [|done].
  exfalso.
  assert (2 ^ (j + a) <= 2 ^ (Zpos (digits2_pos m) - 1))%Z
    by (apply Z.pow_le_mono_r; lia).
  lia.
Qed.

Lemma shr_1_shifted M k mrs :
  (0 <= k)%Z -> shifted M k mrs -> shifted M (k + 1) (shr_1 mrs).
Proof.
  intros Hk (H0 & Hle & Hlt). unfold shifted.
  rewrite Z.pow_add_r by lia. change (2 ^ 1)%Z with 2%Z.
  assert (0 < 2 ^ k)%Z by (apply Z.pow_pos_nonneg; lia).
  destruct mrs as [m r s]. cbn [shr_m] in *.
  assert (Hrs : r || s = true -> (m * 2 ^ k < M)%Z).
  { intros Hrs. apply Hlt. by destruct r, s. }
  assert (Hloc : forall m' r', loc_of_shr_record (Build_shr_record m' r' (r || s)) <> loc_Exact ->
                   r' = true \/ r || s = true).
  { intros m' r' Hne. destruct r', r, s; simpl in *; tauto. }
  destruct m as [|[m|m|]|m]; cbn [shr_1 shr_m]; [| | | |lia].
  - split; [lia|]. split; [lia|]. intros Hne.
    destruct (Hloc _ _ Hne) as [?|Hne']; [done|]. specialize (Hrs Hne'). lia.
  - split; [lia|]. split; [lia|]. intros _. lia.
  - split; [lia|]. split; [lia|]. intros Hne.
    destruct (Hloc _ _ Hne) as [?|Hne']; [done|]. specialize (Hrs Hne'). lia.
  - split; [lia|]. split; [lia|]. intros _. lia.
Qed.

Lemma iter_shr_1_shifted M p k mrs :
  (0 <= k)%Z -> shifted M k mrs -> shifted M (k + Zpos p) (SpecFloat.iter_pos shr_1 p mrs).
Proof.
  revert k mrs. induction p as [p IH|p IH|]; intros k mrs Hk Hs; cbn [SpecFloat.iter_pos].
  - replace (k + Zpos p~1)%Z with (k + 1 + Zpos p + Zpos p)%Z by lia.
    apply IH; [lia|]. apply IH; [lia|]. by apply shr_1_shifted.
  - replace (k + Zpos p~0)%Z with (k + Zpos p + Zpos p)%Z by lia.
    apply IH; [lia|]. by apply IH.
  - by apply shr_1_shifted.
Qed.

Lemma shr_exact_shifted M e n :
  (0 <= M)%Z ->
  shifted M (Z.max n 0) (fst (shr (shr_record_of_loc M loc_Exact) e n)) /\
  snd (shr (shr_record_of_loc M loc_Exact) e n) = (e + Z.max n 0)%Z.
Proof.
  intros HM.
  assert (H0 : shifted M 0 (shr_record_of_loc M loc_Exact)).
  { unfold shifted. simpl. split; [done|]. split; [lia|]. done. }
  destruct n as [|p|p]; simpl shr; simpl fst; simpl snd.
  - split; [done|]. simpl. lia.
  - split; [|lia]. rewrite Z.max_l by lia.
    apply (iter_shr_1_shifted M p 0); [lia|done].
  - split; [done|]. simpl. lia.
Qed.

Lemma fexp64 x : fexp prec emax x = Z.max (x - 53) (-1074).
Proof. done. Qed.

(** Shifting to the canonical exponent keeps a value below [2^j],
    [j <= 53], at a non-positive exponent. *)
Lemma shr_fexp_exponent M E B j :
  (0 <= M)%Z -> (E <= 0)%Z -> (0 <= j <= 53)%Z -> (0 <= B < 2 ^ j)%Z ->
  (M <= B * 2 ^ (- E))%Z ->
  let k := Z.max (fexp prec emax (Zdigits2 M + E) - E) 0 in
  (E + k <= 0)%Z /\ (2 ^ (- E) = 2 ^ (- (E + k)) * 2 ^ k)%Z.
Proof.
  intros HM HE Hj HB Hle k.
  assert (Hk0 : (0 <= k)%Z) by (unfold k; lia).
  assert (HEk : (E + k <= 0)%Z).
  { assert (0 < 2 ^ (- E))%Z by (apply Z.pow_pos_nonneg; lia).
    assert (Zdigits2 M <= j + - E)%Z by (apply Zdigits2_le; nia).
    unfold k. rewrite fexp64. lia. }
  split; [done|].
  rewrite <- Z.pow_add_r by lia. f_equal. lia.
Qed.

(** Rounding a non-negative value that is at most the integer [B] gives
    zero or a finite number that is at most [B]. *)
Lemma binary_round_aux_le M E B j :
  (0 <= M)%Z -> (E <= 0)%Z -> (0 <= j <= 53)%Z -> (0 <= B < 2 ^ j)%Z ->
  (M <= B * 2 ^ (- E))%Z ->
  match binary_round_aux prec emax false M E loc_Exact with
  | S754_zero _ => True
  | S754_finite false m e => (e <= 0 /\ Zpos m <= B * 2 ^ (- e))%Z
  | _ => False
  end.
Proof.
  intros HM HE Hj HB Hle. unfold binary_round_aux, shr_fexp.
  (* first shift *)
  destruct (shr_fexp_exponent M E B j HM HE Hj HB Hle) as [He1 Hp1].
  destruct (shr_exact_shifted M E (fexp prec emax (Zdigits2 M + E) - E) HM)
    as [(Hm1 & Hle1 & Hlt1) Hs1].
  destruct (shr (shr_record_of_loc M loc_Exact) E _) as [mrs1 e1].
  cbn [fst snd] in *. subst e1.
  set (k := Z.max (fexp prec emax (Zdigits2 M + E) - E) 0) in *.
  assert (Hk : (0 < 2 ^ k)%Z) by (apply Z.pow_pos_nonneg; lia).
  set (m2 := round_nearest_even (shr_m mrs1) (loc_of_shr_record mrs1)).
  assert (Hm2 : (0 <= m2 <= B * 2 ^ (- (E + k)))%Z).
  { assert (shr_m mrs1 <= B * 2 ^ (- (E + k)))%Z by nia.
    unfold m2, round_nearest_even.
    destruct (loc_of_shr_record mrs1) as [|[| |]] eqn:Hloc; [lia| | |].
    - assert (shr_m mrs1 * 2 ^ k < M)%Z by (apply Hlt1; done).
      destruct (Z.even (shr_m mrs1)); nia.
    - lia.
    - assert (shr_m mrs1 * 2 ^ k < M)%Z by (apply Hlt1; done). nia. }
  (* second shift *)
  destruct (shr_fexp_exponent m2 (E + k) B j) as [He2 Hp2]; [lia|done|done|done|lia|].
  destruct (shr_exact_shifted m2 (E + k) (fexp prec emax (Zdigits2 m2 + (E + k)) - (E + k)))
    as [(Hm3 & Hle3 & _) Hs3]; [lia|].
  destruct (shr (shr_record_of_loc m2 loc_Exact) (E + k) _) as [mrs2 e2].
  cbn [fst snd] in *. subst e2.
  set (k' := Z.max (fexp prec emax (Zdigits2 m2 + (E + k)) - (E + k)) 0) in *.
  assert (Hk' : (0 < 2 ^ k')%Z) by (apply Z.pow_pos_nonneg; lia).
  destruct (shr_m mrs2) as [|m3|m3] eqn:Hm; [done| |lia].
  rewrite (proj2 (Z.leb_le _ _)) by (change (emax - prec)%Z with 971%Z; lia).
  split; [done|]. nia.
Qed.

Lemma SF_rint_le x B :
  (0 <= B)%Z ->
  match x with
  | S754_zero _ => True
  | S754_finite false m e => (e <= 0 /\ Zpos m <= B * 2 ^ (- e))%Z
  | _ => False
  end ->
  exists n, SF_rint x = Some n /\ (0 <= n <= B)%Z.
Proof.
  intros HB. destruct x as [s|s| |[|] m e]; try done.
  - intros _. exists 0%Z. split; [done|lia].
  - intros [He Hm]. eexists. split; [done|].
    destruct e as [|e|k]; [|lia|].
    + change (2 ^ (- 0))%Z with 1%Z in Hm. lia.
    + apply round_half_even_bound; [lia|].
      rewrite Pos2Z.inj_pow.
      change (- Zneg k)%Z with (Zpos k) in Hm. lia.
Qed.

Lemma compare_cont_le p q :
  Pos.compare_cont Eq p q <> Gt -> (Zpos p <= Zpos q)%Z.
Proof. intros H. exact H. Qed.

(** A normalised sample times 255 rounds to an integer of 0..255. *)
Lemma normalized_lrint s :
  normalized s -> exists n, lrint (s * 255) = Some n /\ (0 <= n <= 255)%Z.
Proof.
  intros [H0 H1]. rewrite FloatAxioms.leb_spec in H0, H1.
  assert (Hone : Prim2SF 1 = S754_finite false 4503599627370496 (-52)) by done.
  assert (Hzero : Prim2SF 0 = S754_zero false) by done.
  assert (H255 : Prim2SF 255 = S754_finite false 8972014882652160 (-45)) by done.
  rewrite Hone in H1. rewrite Hzero in H0.
  assert (Hr : exists n, SF_rint (Prim2SF (s * 255)) = Some n /\ (0 <= n <= 255)%Z).
  { apply SF_rint_le; [lia|].
    rewrite FloatAxioms.mul_spec, H255. unfold SF64mul.
    pose proof (Prim2SF_valid s) as Hv.
    destruct (Prim2SF s) as [b|b| |b m e]; try done.
    - by destruct b.
    - destruct b; [done|]. cbn [SFmul xorb].
      apply (binary_round_aux_le _ _ 255 8); [lia| |lia|lia|].
      + unfold SFleb, SFcompare in H1.
        destruct (Z.compare_spec e (-52)); try done; lia.
      + cbn [valid_binary] in Hv. unfold bounded, canonical_mantissa in Hv.
        apply andb_prop in Hv as [Hc _]. apply Z.eqb_eq in Hc.
        rewrite fexp64 in Hc.
        pose proof (digits2_pos_bounds m) as [_ Hhi].
        assert (Hm53 : (Zpos m < 2 ^ 53)%Z).
        { eapply Z.lt_le_trans; [exact Hhi|]. apply Z.pow_le_mono_r; lia. }
        assert (He : (e <= -52)%Z).
        { unfold SFleb, SFcompare in H1.
          destruct (Z.compare_spec e (-52)); try done; lia. }
        assert (Hm : (Zpos m <= 2 ^ (- e))%Z).
        { unfold SFleb, SFcompare in H1.
          destruct (Z.compare_spec e (-52)) as [Heq|Hlt|Hgt]; [| |done].
          - subst e.
            assert (Hp : (2 ^ (- -52) = 4503599627370496)%Z) by (vm_compute; reflexivity).
            rewrite Hp.
            apply compare_cont_le.
            destruct (Pos.compare_cont Eq m 4503599627370496); done.
          - assert (2 ^ 53 <= 2 ^ (- e))%Z by (apply Z.pow_le_mono_r; clear -Hlt; lia).
            clear -H Hm53. lia. }
        replace (- (e + -45))%Z with (- e + 45)%Z by (clear; lia).
        rewrite Z.pow_add_r by (clear -He; lia).
        rewrite Pos2Z.inj_mul.
        assert (Hp : (2 ^ 45 = 35184372088832)%Z) by (vm_compute; reflexivity).
        rewrite Hp.
        assert (0 < 2 ^ (- e))%Z by (apply Z.pow_pos_nonneg; clear -He; lia).
        clear -Hm H. nia. }
  destruct Hr as (n & Hn & Hrange). exists n. split; [|done].
  unfold lrint. rewrite Hn. simpl.
  rewrite decide_True; [done|]. clear -Hrange. lia.
Qed.

(** ** Bytes *)

Lemma int_of_uchar_of_long n : int_of_uchar (uchar_of_long n) = (n mod 256)%Z.
Proof.
  unfold int_of_uchar, uchar_of_long.
  pose proof (Z.mod_pos_bound n 256 ltac:(lia)) as Hr.
  destruct (Byte.of_N (Z.to_N (n mod 256))) as [b|] eqn:Hb.
  - apply Byte.to_of_N in Hb. simpl. rewrite Hb. lia.
  - apply Byte.of_N_None_iff in Hb. lia.
Qed.

Lemma int_of_uchar_of_long_small n :
  (0 <= n <= 255)%Z -> int_of_uchar (uchar_of_long n) = n.
Proof. intros H. rewrite int_of_uchar_of_long. apply Z.mod_small. lia. Qed.

(** ** The encoder on well-formed images *)

Lemma Image_wf_shape im :
  Image_wf im -> shape (mNumChannels im) (mNumPixels im) (mChannels im).
Proof. intros (_ & Hn & Hall). by split. Qed.

Lemma mapM_seq_lookup {B} (f : nat -> option B) N ys p :
  mapM f (seq 0 N) = Some ys -> p < N ->
  exists y, f p = Some y /\ ys !! p = Some y.
Proof.
  intros Hm Hp. apply mapM_Some_1 in Hm.
  destruct (Forall2_lookup_l _ _ _ p p Hm) as (y & Hy & Hf).
  { by apply lookup_seq_lt. }
  eauto.
Qed.

Lemma mapM_seq_Some {B} (f : nat -> option B) N :
  (forall p, p < N -> is_Some (f p)) -> is_Some (mapM f (seq 0 N)).
Proof.
  intros H. apply mapM_is_Some_2, Forall_forall. intros p Hp.
  apply list_elem_of_In, in_seq in Hp. apply H. lia.
Qed.

(** The bytes of one pixel whose samples are normalised. *)
Lemma pixel_bytes_normalized chans p :
  (forall c ch, chans !! c = Some ch ->
     exists s, ch !! p = Some s /\ normalized s) ->
  exists q, pixel_bytes chans p = Some q /\
    forall c ch, chans !! c = Some ch ->
      exists s n, ch !! p = Some s /\ lrint (s * 255) = Some n /\
        (0 <= n <= 255)%Z /\ q !! c = Some (uchar_of_long n).
Proof.
  unfold pixel_bytes. induction chans as [|ch chans IH]; intros H.
  - exists []. split; [done|]. intros c ch Hc. done.
  - destruct (H 0 ch eq_refl) as (s & Hs & Hnorm).
    destruct (normalized_lrint s Hnorm) as (n & Hn & Hrange).
    destruct IH as (q & Hq & Hq').
    { intros c ch' Hc. apply (H (Datatypes.S c) ch' Hc). }
    exists (uchar_of_long n :: q). split.
    + cbn [mapM]. rewrite Hs. cbn [mbind option_bind].
      assert (Hb : sample_to_byte s = Some (uchar_of_long n))
        by (unfold sample_to_byte; rewrite Hn; done).
      rewrite Hb. cbn [mbind option_bind].
      rewrite Hq. done.
    + intros [|c] ch' Hc.
      * injection Hc as <-. exists s, n. done.
      * apply (Hq' c ch' Hc).
Qed.

Lemma mapM_pixels_quads (f : nat -> option (list byte)) N quads :
  (forall p q, f p = Some q -> length q = 4) ->
  mapM f (seq 0 N) = Some quads ->
  length (concat quads) = 4 * N /\
  forall p k, p < N -> k < 4 ->
    exists q, f p = Some q /\ concat quads !! (4 * p + k) = q !! k.
Proof.
  intros Hlen Hm.
  assert (Hall : Forall (fun q => length q = 4) quads).
  { apply Forall_lookup. intros i q Hq.
    assert (Hi : i < N).
    { apply lookup_lt_Some in Hq. apply length_mapM in Hm.
      rewrite length_seq in Hm. lia. }
    destruct (mapM_seq_lookup f N quads i Hm Hi) as (q' & Hf & Hq').
    rewrite Hq in Hq'. injection Hq' as <-. by eapply Hlen. }
  split.
  - rewrite concat_length4 by done. apply length_mapM in Hm.
    rewrite length_seq in Hm. lia.
  - intros p k Hp Hk.
    destruct (mapM_seq_lookup f N quads p Hm Hp) as (q & Hf & Hq).
    exists q. split; [done|].
    rewrite concat_lookup4 by done. rewrite Hq. done.
Qed.

(** The first four buffers of a well-formed image with more than three
    channels. *)
Lemma wf_channels4 im :
  Image_wf im -> 3 < mNumChannels im ->
  exists c0 c1 c2 c3,
    mChannels im !! 0 = Some c0 /\ mChannels im !! 1 = Some c1 /\
    mChannels im !! 2 = Some c2 /\ mChannels im !! 3 = Some c3 /\
    forall c ch, [c0; c1; c2; c3] !! c = Some ch ->
      mChannels im !! c = Some ch /\ length ch = mNumPixels im.
Proof.
  intros Hwf Hn. apply Image_wf_shape in Hwf.
  destruct (shape_lookup _ _ _ 0 Hwf) as (c0 & H0 & L0); [lia|].
  destruct (shape_lookup _ _ _ 1 Hwf) as (c1 & H1 & L1); [lia|].
  destruct (shape_lookup _ _ _ 2 Hwf) as (c2 & H2 & L2); [lia|].
  destruct (shape_lookup _ _ _ 3 Hwf) as (c3 & H3 & L3); [lia|].
  exists c0, c1, c2, c3. repeat (split; [done|]).
  intros [|[|[|[|c]]]] ch Hc; simpl in Hc; try done; by injection Hc as <-.
Qed.

Lemma wf_channels3 im :
  Image_wf im -> mNumChannels im = 3 ->
  exists c0 c1 c2,
    mChannels im !! 0 = Some c0 /\ mChannels im !! 1 = Some c1 /\
    mChannels im !! 2 = Some c2 /\
    forall c ch, [c0; c1; c2] !! c = Some ch ->
      mChannels im !! c = Some ch /\ length ch = mNumPixels im.
Proof.
  intros Hwf Hn. apply Image_wf_shape in Hwf.
  destruct (shape_lookup _ _ _ 0 Hwf) as (c0 & H0 & L0); [lia|].
  destruct (shape_lookup _ _ _ 1 Hwf) as (c1 & H1 & L1); [lia|].
  destruct (shape_lookup _ _ _ 2 Hwf) as (c2 & H2 & L2); [lia|].
  exists c0, c1, c2. repeat (split; [done|]).
  intros [|[|[|c]]] ch Hc; simpl in Hc; try done; by injection Hc as <-.
Qed.

(** Every pixel of well-formed, normalised buffers has its bytes. *)
Lemma pixel_bytes_wf im chans p :
  (forall c ch, chans !! c = Some ch ->
     mChannels im !! c = Some ch /\ length ch = mNumPixels im) ->
  (forall c q s, c < length chans -> sample im c q = Some s -> normalized s) ->
  p < mNumPixels im ->
  exists q, pixel_bytes chans p = Some q /\
    forall c, c < length chans ->
      exists s n, sample im c p = Some s /\ lrint (s * 255) = Some n /\
        (0 <= n <= 255)%Z /\ q !! c = Some (uchar_of_long n).
Proof.
  intros Hch Hnorm Hp.
  destruct (pixel_bytes_normalized chans p) as (q & Hq & Hq').
  - intros c ch Hc. destruct (Hch c ch Hc) as [Him Hlen].
    destruct (lookup_lt_is_Some_2 ch p) as [s Hs]; [lia|].
    exists s. split; [done|].
    apply (Hnorm c p s); [by eapply lookup_lt_Some|].
    unfold sample, cell. rewrite Him. done.
  - exists q. split; [done|]. intros c Hc.
    destruct (lookup_lt_is_Some_2 chans c Hc) as [ch Hch'].
    destruct (Hq' c ch Hch') as (s & n & Hs & Hn & Hr & Hb).
    exists s, n. split; [|done].
    unfold sample, cell. rewrite (proj1 (Hch c ch Hch')). done.
Qed.

(** * The claims *)

(** C3.  For an image with at least four channels whose samples are
    normalised, the encoder returns four bytes per pixel, and the byte
    for channel [c] of pixel [p], [c] in 0..3, is the sample times 255
    rounded to a nearest integer of 0..255 (not truncated).  Channels
    beyond index 3 have no effect on the output.  The 1×1 image with
    channels [0.5, 0.25, 0.75, 1.0] encodes to [128, 64, 191, 255]. *)
Theorem getRGBABytes_rounds_to_nearest :
  (forall junk im,
     Image_wf im -> 3 < mNumChannels im ->
     (forall c p s, c < 4 -> sample im c p = Some s -> normalized s) ->
     exists bytes,
       getRGBABytes_static junk im = Some bytes /\
       length bytes = 4 * mNumPixels im /\
       forall p c, p < mNumPixels im -> c < 4 ->
         exists s n b,
           sample im c p = Some s /\
           lrint (s * 255) = Some n /\ nearest_integer n (s * 255) /\
           (0 <= n <= 255)%Z /\
           bytes !! (4 * p + c) = Some b /\ int_of_uchar b = n) /\
  (forall junk junk' im im',
     mWide im = mWide im' -> mHigh im = mHigh im' ->
     3 < mNumChannels im -> 3 < mNumChannels im' ->
     take 4 (mChannels im) = take 4 (mChannels im') ->
     getRGBABytes_static junk im = getRGBABytes_static junk' im') /\
  (forall junk,
     getRGBABytes_static junk (img1x1 [0.5; 0.25; 0.75; 1]%float) =
     Some [x80; x40; xbf; xff]).
Proof.
  split; [|split].
  - intros junk im Hwf Hn Hnorm.
    rewrite getRGBABytes_static_encoded. unfold encoded.
    destruct (wf_channels4 im Hwf Hn) as (c0 & c1 & c2 & c3 & H0 & H1 & H2 & H3 & Hch).
    rewrite H0, H1, H2, H3. cbn [mbind option_bind].
    rewrite decide_True by done.
    assert (HN : mWide im * mHigh im = mNumPixels im) by (symmetry; apply Hwf).
    rewrite HN.
    destruct (mapM_seq_Some (pixel_bytes [c0; c1; c2; c3]) (mNumPixels im))
      as [quads Hq].
    { intros p Hp.
      destruct (pixel_bytes_wf im [c0; c1; c2; c3] p Hch Hnorm Hp) as (q & Hq & _).
      by exists q. }
    rewrite Hq. cbn [fmap option_fmap option_map].
    destruct (mapM_pixels_quads _ _ _
                (fun p q H => pixel_bytes_length [c0; c1; c2; c3] p q H) Hq)
      as [Hlen Hlook].
    eexists. split; [done|]. split; [done|].
    intros p c Hp Hc.
    destruct (Hlook p c Hp Hc) as (q & Hq1 & Hq2).
    destruct (pixel_bytes_wf im [c0; c1; c2; c3] p Hch Hnorm Hp) as (q' & Hq' & Hbytes).
    rewrite Hq1 in Hq'. injection Hq' as <-.
    destruct (Hbytes c Hc) as (s & n & Hs & Hl & Hr & Hb).
    exists s, n, (uchar_of_long n).
    split; [done|]. split; [done|]. split; [by apply lrint_nearest|].
    split; [done|]. split; [by rewrite Hq2|].
    by apply int_of_uchar_of_long_small.
  - intros junk junk' im im' Hw Hh Hn Hn' Htake.
    rewrite !getRGBABytes_static_encoded. unfold encoded.
    assert (Hlk : forall c, c < 4 -> mChannels im !! c = mChannels im' !! c).
    { intros c Hc. rewrite <- (lookup_take_lt (mChannels im) 4 c Hc).
      rewrite Htake. by apply lookup_take_lt. }
    rewrite (Hlk 0), (Hlk 1), (Hlk 2), (Hlk 3), Hw, Hh by lia.
    destruct (mChannels im' !! 0); cbn [mbind option_bind]; [|done].
    destruct (mChannels im' !! 1); cbn [mbind option_bind]; [|done].
    destruct (mChannels im' !! 2); cbn [mbind option_bind]; [|done].
    rewrite !decide_True by done. done.
  - intros junk. vm_compute. reflexivity.
Qed.

Lemma getRGBABytes_rounds_to_nearest_witness :
  exists bytes,
    getRGBABytes_static (fun _ => x00) (img1x1 [0.5; 0.25; 0.75; 1]%float)
      = Some bytes /\
    length bytes = 4.
Proof.
  destruct (proj1 getRGBABytes_rounds_to_nearest (fun _ => x00)
              (img1x1 [0.5; 0.25; 0.75; 1]%float)) as (bytes & Hb & Hlen & _).
  - unfold Image_wf. simpl. repeat split; try done. repeat constructor.
  - simpl. lia.
  - intros c p s Hc Hs. unfold normalized.
    destruct c as [|[|[|[|c]]]]; [| | | |lia];
      destruct p as [|p]; vm_compute in Hs; try done;
      injection Hs as <-; vm_compute; done.
  - exists bytes. done.
Defined.

Lemma pixel3_length c0 c1 c2 p q :
  (.++ [xff]) <$> pixel_bytes [c0; c1; c2] p = Some q -> length q = 4.
Proof.
  destruct (pixel_bytes [c0; c1; c2] p) as [q'|] eqn:Hq'; [|done].
  apply pixel_bytes_length in Hq'. intros [= <-].
  rewrite length_app, Hq'. done.
Qed.

(** C4.  For an image with exactly three channels the encoder writes
    the rounded colour samples as the first three bytes of each pixel
    and 255 as the fourth; the fourth byte is 255 in whatever the
    encoder returns, for any sample values. *)
Theorem getRGBABytes_default_alpha :
  (forall junk im,
     Image_wf im -> mNumChannels im = 3 ->
     (forall c p s, c < 3 -> sample im c p = Some s -> normalized s) ->
     exists bytes,
       getRGBABytes_static junk im = Some bytes /\
       length bytes = 4 * mNumPixels im /\
       forall p, p < mNumPixels im ->
         bytes !! (4 * p + 3) = Some xff /\
         forall c, c < 3 ->
           exists s n b,
             sample im c p = Some s /\
             lrint (s * 255) = Some n /\ nearest_integer n (s * 255) /\
             (0 <= n <= 255)%Z /\
             bytes !! (4 * p + c) = Some b /\ int_of_uchar b = n) /\
  (forall junk im bytes,
     mNumChannels im = 3 ->
     getRGBABytes_static junk im = Some bytes ->
     forall p, p < mWide im * mHigh im -> bytes !! (4 * p + 3) = Some xff).
Proof.
  assert (Halpha : forall c0 c1 c2 N quads p,
    mapM (fun p => (.++ [xff]) <$> pixel_bytes [c0; c1; c2] p) (seq 0 N) = Some quads ->
    p < N -> concat quads !! (4 * p + 3) = Some xff).
  { intros c0 c1 c2 N quads p Hq Hp.
    destruct (mapM_pixels_quads _ _ _ (pixel3_length c0 c1 c2) Hq) as [_ Hlook].
    destruct (Hlook p 3 Hp) as (q & Hq1 & Hq2); [lia|].
    rewrite Hq2.
    destruct (pixel_bytes [c0; c1; c2] p) as [q'|] eqn:Hq'; [|done].
    apply pixel_bytes_length in Hq'. injection Hq1 as <-.
    rewrite lookup_app_r by (rewrite Hq'; simpl; lia).
    rewrite Hq'. done. }
  split.
  - intros junk im Hwf Hn Hnorm.
    rewrite getRGBABytes_static_encoded. unfold encoded.
    destruct (wf_channels3 im Hwf Hn) as (c0 & c1 & c2 & H0 & H1 & H2 & Hch).
    rewrite H0, H1, H2. cbn [mbind option_bind].
    rewrite decide_False by lia.
    assert (HN : mWide im * mHigh im = mNumPixels im) by (symmetry; apply Hwf).
    rewrite HN.
    destruct (mapM_seq_Some (fun p => (.++ [xff]) <$> pixel_bytes [c0; c1; c2] p)
                (mNumPixels im)) as [quads Hq].
    { intros p Hp.
      destruct (pixel_bytes_wf im [c0; c1; c2] p Hch Hnorm Hp) as (q & Hq & _).
      rewrite Hq. by eexists. }
    rewrite Hq. cbn [fmap option_fmap option_map].
    destruct (mapM_pixels_quads _ _ _ (pixel3_length c0 c1 c2) Hq) as [Hlen Hlook].
    eexists. split; [done|]. split; [done|].
    intros p Hp. split; [by eapply Halpha|].
    intros c Hc.
    destruct (Hlook p c Hp) as (q & Hq1 & Hq2); [lia|].
    destruct (pixel_bytes_wf im [c0; c1; c2] p Hch Hnorm Hp) as (q' & Hq' & Hbytes).
    rewrite Hq' in Hq1. injection Hq1 as <-.
    destruct (Hbytes c Hc) as (s & n & Hs & Hl & Hr & Hb).
    exists s, n, (uchar_of_long n).
    split; [done|]. split; [done|]. split; [by apply lrint_nearest|].
    split; [done|]. split.
    + rewrite Hq2. by apply lookup_app_l_Some.
    + by apply int_of_uchar_of_long_small.
  - intros junk im bytes Hn.
    rewrite getRGBABytes_static_encoded. unfold encoded.
    destruct (mChannels im !! 0) as [c0|]; cbn [mbind option_bind]; [|done].
    destruct (mChannels im !! 1) as [c1|]; cbn [mbind option_bind]; [|done].
    destruct (mChannels im !! 2) as [c2|]; cbn [mbind option_bind]; [|done].
    rewrite decide_False by lia.
    destruct (mapM _ (seq 0 (mWide im * mHigh im))) as [quads|] eqn:Hq; [|done].
    intros [= <-] p Hp. by eapply Halpha.
Qed.

Lemma getRGBABytes_default_alpha_witness :
  (exists bytes,
     getRGBABytes_static (fun _ => x00) (img1x1 [0.5; 0.25; 0.75]%float)
       = Some bytes /\
     length bytes = 4) /\
  [x80; x40; xbf; xff] !! (4 * 0 + 3) = Some xff.
Proof.
  split.
  - destruct (proj1 getRGBABytes_default_alpha (fun _ => x00)
                (img1x1 [0.5; 0.25; 0.75]%float)) as (bytes & Hb & Hlen & _).
    + unfold Image_wf. simpl. repeat split; try done. repeat constructor.
    + reflexivity.
    + intros c p s Hc Hs. unfold normalized.
      destruct c as [|[|[|c]]]; [| | |lia];
        destruct p as [|p]; vm_compute in Hs; try done;
        injection Hs as <-; vm_compute; done.
    + exists bytes. done.
  - apply (proj2 getRGBABytes_default_alpha (fun _ => x00)
             (img1x1 [0.5; 0.25; 0.75]%float) [x80; x40; xbf; xff]).
    + reflexivity.
    + vm_compute. reflexivity.
    + simpl. lia.
Defined.

(** C10.  The member encoder returns the same bytes as the static one
    on the same image, whatever either call's fresh buffer held. *)
Theorem getRGBABytes_member_static junk junk' this :
  getRGBABytes junk this = getRGBABytes_static junk' this.
Proof. unfold getRGBABytes. by rewrite !getRGBABytes_static_encoded. Qed.

(** C9.  With 3 and with 4 channels the decoder's unrolled path returns
    exactly what the per-channel loop returns on the same input. *)
Theorem getImageFromBytes_fast_paths junk inBytes inWidth inHeight :
  getImageFromBytes junk inBytes inWidth inHeight 3 =
    getImageFromBytes_general junk inBytes inWidth inHeight 3 /\
  getImageFromBytes junk inBytes inWidth inHeight 4 =
    getImageFromBytes_general junk inBytes inWidth inHeight 4.
Proof.
  unfold getImageFromBytes, getImageFromBytes_general.
  rewrite decide_True by done.
  rewrite decide_False by done. rewrite decide_True by done.
  split.
  - by rewrite (decode_rows_ext _ _ _ _ _ (fun w => decode_pixel3_general inBytes w)).
  - by rewrite (decode_rows_ext _ _ _ _ _ (fun w => decode_pixel4_general inBytes w)).
Qed.

(** C6.  On a buffer that covers the image the decoder stores byte
    [(y*width + x)*N + k] of the input, scaled, as the sample of
    channel [k] at pixel [y*width + x]: rows top to bottom, pixels left
    to right within a row, channels in source order within a pixel.
    For a 2×1 image bytes 0..N-1 feed pixel (0,0) and bytes N..2N-1
    pixel (1,0); for a 1×2 image the two groups feed rows 0 and 1. *)
Theorem getImageFromBytes_row_major :
  (forall junk inBytes inWidth inHeight N,
     inWidth * inHeight * N <= length inBytes ->
     exists im,
       getImageFromBytes junk inBytes inWidth inHeight N = Some im /\
       mWide im = inWidth /\ mHigh im = inHeight /\ mNumChannels im = N /\
       Image_wf im /\
       forall x y k, x < inWidth -> y < inHeight -> k < N ->
         sample im k (y * inWidth + x) =
         byte_to_sample <$> inBytes !! ((y * inWidth + x) * N + k)) /\
  (forall junk inBytes N,
     2 * N <= length inBytes ->
     exists im,
       getImageFromBytes junk inBytes 2 1 N = Some im /\
       forall k, k < N ->
         sample im k (0 * 2 + 0) = byte_to_sample <$> inBytes !! k /\
         sample im k (0 * 2 + 1) = byte_to_sample <$> inBytes !! (N + k)) /\
  (forall junk inBytes N,
     2 * N <= length inBytes ->
     exists im,
       getImageFromBytes junk inBytes 1 2 N = Some im /\
       forall k, k < N ->
         sample im k (0 * 1 + 0) = byte_to_sample <$> inBytes !! k /\
         sample im k (1 * 1 + 0) = byte_to_sample <$> inBytes !! (N + k)).
Proof.
  assert (Hgen : forall junk inBytes inWidth inHeight N,
     inWidth * inHeight * N <= length inBytes ->
     exists im,
       getImageFromBytes junk inBytes inWidth inHeight N = Some im /\
       mWide im = inWidth /\ mHigh im = inHeight /\ mNumChannels im = N /\
       Image_wf im /\
       forall x y k, x < inWidth -> y < inHeight -> k < N ->
         sample im k (y * inWidth + x) =
         byte_to_sample <$> inBytes !! ((y * inWidth + x) * N + k)).
  { intros junk inBytes w h N Hb.
    destruct (getImageFromBytes_spec junk inBytes w h N Hb)
      as (im & Him & Hw & Hh & Hn & Hwf & Hs).
    exists im. repeat (split; [done|]).
    intros x y k Hx Hy Hk. apply Hs; [done|nia]. }
  split; [exact Hgen|]. split.
  - intros junk inBytes N Hb.
    destruct (Hgen junk inBytes 2 1 N) as (im & Him & _ & _ & _ & _ & Hs); [lia|].
    exists im. split; [done|]. intros k Hk. split.
    + rewrite (Hs 0 0 k) by lia. done.
    + rewrite (Hs 1 0 k) by lia. simpl. by rewrite Nat.add_0_r.
  - intros junk inBytes N Hb.
    destruct (Hgen junk inBytes 1 2 N) as (im & Him & _ & _ & _ & _ & Hs); [lia|].
    exists im. split; [done|]. intros k Hk. split.
    + rewrite (Hs 0 0 k) by lia. done.
    + rewrite (Hs 0 1 k) by lia. simpl. by rewrite Nat.add_0_r.
Qed.

Lemma getImageFromBytes_row_major_witness :
  exists im,
    getImageFromBytes (fun _ _ => 0%float) [x01; x02; x03; x04] 2 1 2 = Some im /\
    forall k, k < 2 ->
      sample im k (0 * 2 + 0) = byte_to_sample <$> [x01; x02; x03; x04] !! k /\
      sample im k (0 * 2 + 1) = byte_to_sample <$> [x01; x02; x03; x04] !! (2 + k).
Proof.
  apply (proj1 (proj2 getImageFromBytes_row_major)
           (fun _ _ => 0%float) [x01; x02; x03; x04] 2).
  simpl. lia.
Defined.

(** ** The converting constructor *)

Lemma memcpy_whole {A} (dst src : list A) n :
  length src = n -> length dst = n -> Arr.memcpy dst src n = Some src.
Proof.
  intros Hs Hd. unfold Arr.memcpy. rewrite decide_True by lia.
  rewrite take_ge, drop_ge by lia. by rewrite app_nil_r.
Qed.

Lemma Image_new_lookup junk w h n z c :
  c < n ->
  mChannels (Image_new junk w h n z) !! c =
  Some (if z then replicate (w * h) 0%float else Arr.alloc (junk c) (w * h)).
Proof.
  intros Hc. unfold Image_new. simpl.
  rewrite list_lookup_fmap, lookup_seq_lt by done. done.
Qed.

(** The copy loop replaces the first [m] buffers by those of the source. *)
Lemma copy_channels_spec inImage len init m :
  Image_wf inImage -> mNumPixels inImage = len -> shape 4 len init ->
  m <= 4 -> m <= mNumChannels inImage ->
  exists chs,
    for_loop m 0
      (fun c chs =>
         inChannel ← getChannel inImage c;
         dst ← Arr.read chs c;
         dst' ← Arr.memcpy dst inChannel len;
         Arr.write chs c dst') init = Some chs /\
    shape 4 len chs /\
    forall j, chs !! j =
      if decide (j < m) then mChannels inImage !! j else init !! j.
Proof.
  intros Hwf Hlen Hinit Hm4 Hmn. apply Image_wf_shape in Hwf. rewrite Hlen in Hwf.
  destruct (for_loop_inv
    (fun c chs => shape 4 len chs /\
       forall j, chs !! j =
         if decide (j < c) then mChannels inImage !! j else init !! j)
    (fun c chs =>
         inChannel ← getChannel inImage c;
         dst ← Arr.read chs c;
         dst' ← Arr.memcpy dst inChannel len;
         Arr.write chs c dst') m 0 init) as (chs & Hrun & Hsh & Hlk).
  - split; [done|]. intros j. by rewrite decide_False by lia.
  - intros c t Hc (Ht & Hj).
    destruct (shape_lookup _ _ _ c Hwf) as (src & Hsrc & Lsrc); [lia|].
    destruct (shape_lookup _ _ _ c Ht) as (dst & Hdst & Ldst); [lia|].
    exists (<[c := src]> t). split; [|split].
    + unfold getChannel, Arr.read. rewrite Hsrc. cbn [mbind option_bind].
      rewrite Hdst. cbn [mbind option_bind].
      rewrite memcpy_whole by done. cbn [mbind option_bind].
      apply write_Some. destruct Ht. lia.
    + by apply shape_insert.
    + intros j. destruct (decide (j = c)) as [->|Hne].
      * rewrite list_lookup_insert_eq by (destruct Ht; lia).
        rewrite decide_True by lia. done.
      * rewrite list_lookup_insert_ne by done. rewrite Hj.
        destruct (decide (j < c)); [rewrite decide_True by lia|rewrite decide_False by lia]; done.
  - exists chs. done.
Qed.

(** The alpha loop sets every sample of buffer 3 to 1.0. *)
Lemma fill_alpha_spec len chs ch3 :
  shape 4 len chs -> chs !! 3 = Some ch3 ->
  for_loop len 0 (fun i chs => poke chs 3 i 1%float) chs =
  Some (<[3 := replicate len 1%float]> chs).
Proof.
  intros Hsh H3.
  assert (L3 : length ch3 = len).
  { destruct Hsh as [_ Hall]. by apply (proj1 (Forall_lookup _ _) Hall 3 ch3). }
  assert (L : 3 < length chs) by (destruct Hsh; lia).
  destruct (for_loop_inv
    (fun i t => t = <[3 := replicate i 1%float ++ drop i ch3]> chs)
    (fun i chs => poke chs 3 i 1%float) len 0 chs) as (t & Hrun & Ht).
  - simpl. rewrite drop_0. by rewrite list_insert_id.
  - intros i t Hi ->. eexists. split; [|reflexivity].
    unfold poke, Arr.read. rewrite list_lookup_insert_eq by done.
    cbn [mbind option_bind].
    rewrite write_Some by (rewrite length_app, length_replicate, length_drop; lia).
    cbn [mbind option_bind].
    rewrite write_Some by (rewrite length_insert; lia).
    rewrite list_insert_insert_eq. do 2 f_equal.
    rewrite insert_app_r_alt by (rewrite length_replicate; lia).
    rewrite length_replicate, Nat.sub_diag.
    destruct (lookup_lt_is_Some_2 ch3 i) as [v Hv]; [lia|].
    rewrite (drop_S _ _ _ Hv). simpl.
    generalize (drop (Datatypes.S i) ch3). clear. intros l.
    induction i as [|i IH]; [done|]. simpl. by rewrite IH.
  - rewrite Hrun. simpl in Ht. subst t.
    rewrite drop_ge, app_nil_r by lia. done.
Qed.

(** C5.  Building an RGBA image from a well-formed image of any channel
    count gives a well-formed four-channel image of the same size whose
    first min(4, count) channels are those of the source.  With fewer
    than four source channels, channel 3 is 1.0 everywhere and the
    colour channels not copied are 0.0; with four or more, the result
    is exactly the first four source channels, the rest dropped. *)
Theorem RGBAImage_of_Image_channels junk inImage :
  Image_wf inImage ->
  exists this,
    RGBAImage_of_Image junk inImage = Some this /\
    mWide this = mWide inImage /\ mHigh this = mHigh inImage /\
    mNumChannels this = 4 /\ Image_wf this /\
    (forall c, c < 4 -> c < mNumChannels inImage ->
       mChannels this !! c = mChannels inImage !! c) /\
    (mNumChannels inImage < 4 ->
       mChannels this !! 3 = Some (replicate (mNumPixels inImage) 1%float) /\
       forall c, mNumChannels inImage <= c < 3 ->
         mChannels this !! c = Some (replicate (mNumPixels inImage) 0%float)) /\
    (4 <= mNumChannels inImage ->
       mChannels this = take 4 (mChannels inImage)).
Proof.
  intros Hwf. unfold RGBAImage_of_Image, getWidth, getHeight, getNumChannels.
  set (n := mNumChannels inImage).
  set (len := mWide inImage * mHigh inImage).
  assert (Hlen : mNumPixels inImage = len) by apply Hwf.
  set (this0 := Image_new junk (mWide inImage) (mHigh inImage) 4 (bool_decide (n < 4))).
  assert (Hpx : mNumPixels this0 = len) by done.
  assert (Hinit : shape 4 len (mChannels this0)) by apply Image_new_shape.
  rewrite Hpx, Hlen.
  destruct (decide (n < 4)) as [Hn|Hn].
  - destruct (copy_channels_spec inImage len (mChannels this0) n Hwf Hlen Hinit)
      as (chs & Hrun & Hsh & Hlk); [lia|done|].
    rewrite Hrun. cbn [mbind option_bind].
    destruct (shape_lookup _ _ _ 3 Hsh) as (ch3 & H3 & _); [lia|].
    rewrite (fill_alpha_spec len chs ch3 Hsh H3). cbn [mbind option_bind].
    assert (L : 3 < length chs) by (destruct Hsh; lia).
    rewrite decide_True by done.
    eexists. split; [done|]. do 3 (split; [done|]).
    split; [|split; [|split]].
    + apply with_channels_wf; [done|]. rewrite Hpx.
      apply shape_insert; [done|]. apply length_replicate.
    + intros c Hc4 Hc. simpl.
      rewrite list_lookup_insert_ne by (fold n in Hc; lia).
      rewrite Hlk. by rewrite decide_True.
    + intros _. simpl. split.
      * by apply list_lookup_insert_eq.
      * intros c Hc. rewrite list_lookup_insert_ne by lia.
        rewrite Hlk. rewrite decide_False by lia.
        unfold this0. rewrite Image_new_lookup by lia.
        rewrite bool_decide_eq_true_2 by done. done.
    + intros Hge. fold n in Hge. lia.
  - destruct (copy_channels_spec inImage len (mChannels this0) 4 Hwf Hlen Hinit)
      as (chs & Hrun & Hsh & Hlk); [lia|lia|].
    rewrite Hrun. cbn [mbind option_bind].
    rewrite decide_False by lia.
    eexists. split; [done|]. do 3 (split; [done|]).
    split; [|split; [|split]].
    + apply with_channels_wf; [done|]. by rewrite Hpx.
    + intros c Hc4 Hc. simpl. rewrite Hlk. by rewrite decide_True.
    + intros Hlt. fold n in Hlt. lia.
    + intros _. simpl. apply list_eq. intros j. rewrite Hlk.
      destruct (decide (j < 4)) as [Hj|Hj].
      * by rewrite lookup_take_lt.
      * rewrite lookup_take_ge by lia.
        apply lookup_ge_None. destruct Hinit. lia.
Qed.

Lemma RGBAImage_of_Image_channels_witness :
  exists this,
    RGBAImage_of_Image (fun _ _ => 7%float)
      (mkImage 2 1 2 2 [[0.5; 0.25]; [0.125; 1]]%float) = Some this /\
    mChannels this = [[0.5; 0.25]; [0.125; 1]; [0; 0]; [1; 1]]%float.
Proof.
  destruct (RGBAImage_of_Image_channels (fun _ _ => 7%float)
              (mkImage 2 1 2 2 [[0.5; 0.25]; [0.125; 1]]%float))
    as (this & Hrun & _).
  - unfold Image_wf. simpl. repeat split; try done. repeat constructor.
  - exists this. split; [done|].
    vm_compute in Hrun. injection Hrun as <-. reflexivity.
Defined.

(** ** Filtering *)

(** C7.  Filtering a four-channel RGBA image through the all-channels
    entry point applies the filter to channels 0, 1 and 2, in that
    order, and leaves channel 3 (alpha) as it was. *)
Theorem RGBAImage_filter_skips_alpha {F : Type}
    (inFilter : ChannelFilter F) (f : F) (this : Image) :
  Image_wf this -> mNumChannels this = 4 ->
  exists f' this' c0 c1 c2 c3 f1 f2 c0' c1' c2',
    RGBAImage_filter inFilter (f, this) = Some (f', this') /\
    mChannels this = [c0; c1; c2; c3] /\
    inFilter f c0 (mWide this) (mHigh this) = (f1, c0') /\
    inFilter f1 c1 (mWide this) (mHigh this) = (f2, c1') /\
    inFilter f2 c2 (mWide this) (mHigh this) = (f', c2') /\
    mChannels this' = [c0'; c1'; c2'; c3] /\
    mChannels this' !! 3 = mChannels this !! 3 /\
    forall p, sample this' 3 p = sample this 3 p.
Proof.
  intros (_ & Hlen & _) Hn. rewrite Hn in Hlen.
  destruct this as [w h np nc chs]. simpl in *. subst nc.
  destruct chs as [|c0 [|c1 [|c2 [|c3 [|c4 chs]]]]]; try done.
  destruct (inFilter f c0 w h) as [f1 c0'] eqn:E0.
  destruct (inFilter f1 c1 w h) as [f2 c1'] eqn:E1.
  destruct (inFilter f2 c2 w h) as [f3 c2'] eqn:E2.
  exists f3, (mkImage w h np 4 [c0'; c1'; c2'; c3]),
    c0, c1, c2, c3, f1, f2, c0', c1', c2'.
  split; [|done].
  unfold RGBAImage_filter. simpl. rewrite E0. simpl. rewrite E1. simpl.
  rewrite E2. done.
Qed.

Lemma RGBAImage_filter_skips_alpha_witness :
  exists this',
    RGBAImage_filter
      (fun (f : unit) ch _ _ => (f, (fun s => s + 1)%float <$> ch))
      (tt, mkImage 2 1 2 4 [[0.5; 0.25]; [0; 1]; [0.125; 0.75]; [1; 0.5]]%float)
      = Some (tt, this') /\
    mChannels this' = [[1.5; 1.25]; [1; 2]; [1.125; 1.75]; [1; 0.5]]%float.
Proof.
  destruct (RGBAImage_filter_skips_alpha
              (fun (f : unit) ch _ _ => (f, (fun s => s + 1)%float <$> ch)) tt
              (mkImage 2 1 2 4 [[0.5; 0.25]; [0; 1]; [0.125; 0.75]; [1; 0.5]]%float))
    as (f' & this' & c0 & c1 & c2 & c3 & f1 & f2 & c0' & c1' & c2' & Hrun & _).
  - unfold Image_wf. simpl. repeat split; try done. repeat constructor.
  - reflexivity.
  - exists this'. destruct f'. split; [done|].
    vm_compute in Hrun. injection Hrun as <-. reflexivity.
Defined.

(** ** The scale constant *)

(** The decoder multiplies by the literal 0.003921569, which is larger
    than 1/255; the three theorems below evaluate the code where that
    shows. *)

(** C2.  Decoding the single pixel [128, 64, 191, 255] with channel
    count 4: the code returns one sample per channel, each the byte
    times 0.003921569, and none of the four equals the byte divided by
    255.0; the last one is not 1.0. *)
Theorem getImageFromBytes_scale_literal junk :
  exists im,
    getImageFromBytes junk [x80; x40; xbf; xff] 1 1 4 = Some im /\
    mChannels im = [[0.50196083199999997]; [0.25098041599999998];
                    [0.74901967899999999]; [1.0000000949999999]]%float /\
    (0.50196083199999997 =? 128 / 255)%float = false /\
    (0.25098041599999998 =? 64 / 255)%float = false /\
    (0.74901967899999999 =? 191 / 255)%float = false /\
    (1.0000000949999999 =? 1)%float = false.
Proof.
  eexists. split; [vm_compute; reflexivity|].
  repeat split; vm_compute; reflexivity.
Qed.

(** C8.  Decoding the byte 255: the code returns the sample
    1.0000000949999999, which is above 1.0.  Byte 0 does map to 0.0,
    and 255 is the only byte whose sample leaves [0.0, 1.0]. *)
Theorem getImageFromBytes_sample_above_one junk :
  (exists im,
     getImageFromBytes junk [xff] 1 1 1 = Some im /\
     sample im 0 0 = Some 1.0000000949999999%float /\
     (1 <? 1.0000000949999999)%float = true /\
     ~ normalized 1.0000000949999999%float) /\
  byte_to_sample x00 = 0%float /\
  forall b, normalized (byte_to_sample b) <-> b <> xff.
Proof.
  split; [|split].
  - eexists. split; [vm_compute; reflexivity|].
    split; [vm_compute; reflexivity|]. split; [vm_compute; reflexivity|].
    intros [_ H]. vm_compute in H. discriminate.
  - vm_compute. reflexivity.
  - intros b. unfold normalized. split.
    + intros [_ H] ->. vm_compute in H. discriminate.
    + intros Hb. destruct b; try (exfalso; apply Hb; reflexivity);
        split; vm_compute; reflexivity.
Qed.

(** C1.  Encoding and decoding the 1×1 image with the samples
    [128/255, 64/255, 191/255, 1.0], all multiples of 1/255: the
    encoder returns [128, 64, 191, 255], and the decoder returns from
    those bytes an image that differs from the original in every
    channel. *)
Theorem roundtrip_changes_samples junk junk' :
  let image := img1x1 [128 / 255; 64 / 255; 191 / 255; 1]%float in
  exists bytes im,
    getRGBABytes_static junk image = Some bytes /\
    bytes = [x80; x40; xbf; xff] /\
    getImageFromBytes junk' bytes 1 1 4 = Some im /\
    im <> image /\
    forall c, c < 4 ->
      exists s s', sample image c 0 = Some s /\ sample im c 0 = Some s' /\
        (s <? s')%float = true.
Proof.
  intros image. exists [x80; x40; xbf; xff]. eexists.
  split; [vm_compute; reflexivity|]. split; [reflexivity|].
  split; [vm_compute; reflexivity|]. split.
  - intros H.
    apply (f_equal (fun im => match sample im 3 0 with
                              | Some s => (s =? 1)%float
                              | None => false
                              end)) in H.
    vm_compute in H. discriminate.
  - intros [|[|[|[|c]]]] Hc; [| | | |lia];
      eexists; eexists; (split; [vm_compute; reflexivity|]);
      (split; [vm_compute; reflexivity|]); vm_compute; reflexivity.
Qed.

(** * Further properties of the code *)

(** ** What the encoder returns, for any samples *)

Lemma pixel_bytes_lookup chans p q :
  pixel_bytes chans p = Some q ->
  forall c ch, chans !! c = Some ch ->
    exists s b, ch !! p = Some s /\ sample_to_byte s = Some b /\ q !! c = Some b.
Proof.
  intros Hq c ch Hc. apply mapM_Some_1 in Hq.
  destruct (Forall2_lookup_l _ _ _ c ch Hq Hc) as (b & Hb & Hf).
  destruct (ch !! p) as [s|]; [|done]. exists s, b. done.
Qed.

(** Whatever the encoder returns is the [encoded] buffer of
    four bytes per pixel. *)
Lemma encoded_quads im bytes :
  encoded im = Some bytes ->
  length bytes = 4 * (mWide im * mHigh im) /\
  exists c0 c1 c2,
    mChannels im !! 0 = Some c0 /\ mChannels im !! 1 = Some c1 /\
    mChannels im !! 2 = Some c2 /\
    forall p, p < mWide im * mHigh im ->
      if decide (3 < mNumChannels im) then
        exists c3 q, mChannels im !! 3 = Some c3 /\
          pixel_bytes [c0; c1; c2; c3] p = Some q /\
          forall k, k < 4 -> bytes !! (4 * p + k) = q !! k
      else
        exists q, pixel_bytes [c0; c1; c2] p = Some q /\
          bytes !! (4 * p + 3) = Some xff /\
          forall k, k < 3 -> bytes !! (4 * p + k) = q !! k.
Proof.
  unfold encoded.
  destruct (mChannels im !! 0) as [c0|]; cbn [mbind option_bind]; [|done].
  destruct (mChannels im !! 1) as [c1|]; cbn [mbind option_bind]; [|done].
  destruct (mChannels im !! 2) as [c2|]; cbn [mbind option_bind]; [|done].
  destruct (decide (3 < mNumChannels im)) as [Hn|Hn].
  - destruct (mChannels im !! 3) as [c3|]; cbn [mbind option_bind]; [|done].
    destruct (mapM _ (seq 0 (mWide im * mHigh im))) as [quads|] eqn:Hq; [|done].
    intros [= <-].
    destruct (mapM_pixels_quads _ _ _
                (fun p q H => pixel_bytes_length [c0; c1; c2; c3] p q H) Hq)
      as [Hlen Hlook].
    split; [done|]. exists c0, c1, c2. repeat (split; [done|]).
    intros p Hp.
    destruct (Hlook p 0 Hp) as (q & Hq0 & _); [lia|].
    exists c3, q. repeat (split; [done|]). intros k Hk.
    destruct (Hlook p k Hp Hk) as (q' & Hq' & Hb). congruence.
  - destruct (mapM _ (seq 0 (mWide im * mHigh im))) as [quads|] eqn:Hq; [|done].
    intros [= <-].
    destruct (mapM_pixels_quads _ _ _ (pixel3_length c0 c1 c2) Hq) as [Hlen Hlook].
    split; [done|]. exists c0, c1, c2. repeat (split; [done|]).
    intros p Hp.
    destruct (pixel_bytes [c0; c1; c2] p) as [q|] eqn:Hq'.
    2:{ destruct (Hlook p 0 Hp) as (q' & Hf & _); [lia|]. by rewrite Hq' in Hf. }
    pose proof (pixel_bytes_length _ _ _ Hq') as Hl. simpl in Hl.
    exists q. split; [done|].
    assert (Hk : forall k, k < 4 -> concat quads !! (4 * p + k) = (q ++ [xff]) !! k).
    { intros k Hk. destruct (Hlook p k Hp Hk) as (q' & Hf & Hb).
      rewrite Hq' in Hf. injection Hf as <-. done. }
    split.
    + rewrite Hk by lia. rewrite lookup_app_r by lia. by rewrite Hl.
    + intros k Hk3. rewrite Hk by lia. apply lookup_app_l. lia.
Qed.

(** X1.  Whenever the encoder returns a buffer, for an image of any
    channel count and any samples, the buffer has exactly
    4 × width × height bytes. *)
Theorem getRGBABytes_length junk im bytes :
  getRGBABytes_static junk im = Some bytes ->
  length bytes = 4 * (getWidth im * getHeight im).
Proof.
  rewrite getRGBABytes_static_encoded. intros H.
  by destruct (encoded_quads im bytes H).
Qed.

Lemma getRGBABytes_length_witness :
  length [x80; x40; xbf; xff] =
  4 * (getWidth (img1x1 [0.5; 0.25; 0.75]%float) *
       getHeight (img1x1 [0.5; 0.25; 0.75]%float)).
Proof.
  apply (getRGBABytes_length (fun _ => x00)).
  vm_compute. reflexivity.
Defined.

(** X2.  The encoder reads channels 0, 1 and 2 before it looks at the
    channel count: on a well-formed image with fewer than three
    channels it reads a buffer the image does not have, and has no
    defined result. *)
Theorem getRGBABytes_needs_three_channels junk im :
  Image_wf im -> getNumChannels im < 3 ->
  getRGBABytes_static junk im = None.
Proof.
  intros (_ & Hlen & _) Hn. unfold getNumChannels in Hn.
  unfold getRGBABytes_static, getChannel, Arr.read.
  assert (H2 : mChannels im !! 2 = None) by (apply lookup_ge_None; lia).
  destruct (mChannels im !! 0); cbn [mbind option_bind]; [|done].
  destruct (mChannels im !! 1); cbn [mbind option_bind]; [|done].
  by rewrite H2.
Qed.

Lemma getRGBABytes_needs_three_channels_witness :
  getRGBABytes_static (fun _ => x00) (img1x1 [0.5; 0.25]%float) = None.
Proof.
  apply getRGBABytes_needs_three_channels.
  - unfold Image_wf. simpl. repeat split; try done. repeat constructor.
  - simpl. lia.
Defined.

(** X3.  The encoder does not clamp.  For an image with more than three
    channels, every byte it returns is the rounded product
    [lrint( sample * 255 )] reduced modulo 256, so a sample outside
    [0.0, 1.0] wraps around: 2.0 is encoded as 254. *)
Theorem getRGBABytes_wraps junk im bytes :
  3 < getNumChannels im ->
  getRGBABytes_static junk im = Some bytes ->
  forall p k, p < getWidth im * getHeight im -> k < 4 ->
    exists s n b,
      sample im k p = Some s /\ lrint (s * 255) = Some n /\
      bytes !! (4 * p + k) = Some b /\ int_of_uchar b = (n mod 256)%Z.
Proof.
  unfold getNumChannels, getWidth, getHeight.
  rewrite getRGBABytes_static_encoded. intros Hn Hb p k Hp Hk.
  destruct (encoded_quads im bytes Hb) as (_ & c0 & c1 & c2 & H0 & H1 & H2 & Hpx).
  specialize (Hpx p Hp). rewrite decide_True in Hpx by done.
  destruct Hpx as (c3 & q & H3 & Hq & Hlook).
  assert (Hch : exists ch, [c0; c1; c2; c3] !! k = Some ch /\ mChannels im !! k = Some ch).
  { destruct k as [|[|[|[|k]]]]; [| | | |lia]; eexists; split; simpl; done. }
  destruct Hch as (ch & Hk4 & Hkim).
  destruct (pixel_bytes_lookup _ _ _ Hq k ch Hk4) as (s & b & Hs & Hsb & Hqb).
  unfold sample_to_byte in Hsb.
  destruct (lrint (s * 255)) as [n|] eqn:Hl; [|done].
  injection Hsb as <-.
  exists s, n, (uchar_of_long n). split; [|split; [done|split]].
  - unfold sample, cell. rewrite Hkim. done.
  - rewrite Hlook by done. done.
  - apply int_of_uchar_of_long.
Qed.

Lemma getRGBABytes_wraps_witness :
  exists s n b,
    sample (img1x1 [2; 0.5; -0.5; 1]%float) 0 0 = Some s /\
    lrint (s * 255) = Some n /\
    [xfe; x80; x80; xff] !! (4 * 0 + 0) = Some b /\
    int_of_uchar b = (n mod 256)%Z.
Proof.
  apply (getRGBABytes_wraps (fun _ => x00) (img1x1 [2; 0.5; -0.5; 1]%float)).
  - simpl. lia.
  - vm_compute. reflexivity.
  - simpl. lia.
  - lia.
Defined.

(** ** Bytes through the decoder and back through the encoder *)

(** Scaling a byte and rounding the sample gives the byte back, in
    spite of the scale literal being a little above 1/255. *)
Lemma sample_to_byte_to_sample b : sample_to_byte (byte_to_sample b) = Some b.
Proof. destruct b; vm_compute; reflexivity. Qed.

Lemma list_eq_quads {A} (l1 l2 : list A) N :
  length l1 = 4 * N -> length l2 = 4 * N ->
  (forall p k, p < N -> k < 4 -> l1 !! (4 * p + k) = l2 !! (4 * p + k)) ->
  l1 = l2.
Proof.
  intros H1 H2 H. apply list_eq. intros i.
  destruct (decide (i < 4 * N)) as [Hi|Hi].
  - rewrite (Nat.div_mod_eq i 4).
    apply H; [apply Nat.Div0.div_lt_upper_bound; lia|].
    apply Nat.mod_upper_bound. lia.
  - rewrite !(proj2 (lookup_ge_None _ _)) by lia. done.
Qed.

Lemma pixel_bytes_Some chans p :
  (forall c ch, chans !! c = Some ch ->
     exists s, ch !! p = Some s /\ is_Some (sample_to_byte s)) ->
  is_Some (pixel_bytes chans p).
Proof.
  intros H. unfold pixel_bytes. apply mapM_is_Some_2, Forall_lookup.
  intros c ch Hc. destruct (H c ch Hc) as (s & Hs & Hb).
  simpl. by rewrite Hs.
Qed.

Lemma with_opaque_alpha_lookup N : forall rgb,
  length rgb = 3 * N ->
  length (with_opaque_alpha rgb) = 4 * N /\
  forall p, p < N ->
    with_opaque_alpha rgb !! (4 * p + 3) = Some xff /\
    forall k, k < 3 -> with_opaque_alpha rgb !! (4 * p + k) = rgb !! (3 * p + k).
Proof.
  induction N as [|N IH]; intros rgb Hlen.
  - destruct rgb; [|done]. split; [done|]. intros p Hp. lia.
  - destruct rgb as [|r [|g [|b rest]]]; simpl in Hlen; try lia.
    destruct (IH rest) as [IHlen IHlook]; [lia|].
    cbn [with_opaque_alpha]. split; [simpl; lia|].
    intros [|p] Hp.
    + split; [done|]. intros [|[|[|k]]] Hk; try done. lia.
    + destruct (IHlook p) as [Ha Hk]; [lia|].
      replace (4 * Datatypes.S p + 3) with (4 + (4 * p + 3)) by lia.
      split; [exact Ha|]. intros k Hk3.
      replace (4 * Datatypes.S p + k) with (4 + (4 * p + k)) by lia.
      replace (3 * Datatypes.S p + k) with (3 + (3 * p + k)) by lia.
      by apply Hk.
Qed.

(** The samples of a decoded image, read back through [sample]. *)
Lemma decoded_sample_byte inBytes N im c p s :
  (forall c p, c < N -> p < mWide im * mHigh im ->
     sample im c p = decoded inBytes N c p) ->
  c < N -> p < mWide im * mHigh im ->
  sample im c p = Some s ->
  exists b, inBytes !! (p * N + c) = Some b /\ s = byte_to_sample b.
Proof.
  intros Hs Hc Hp Hsome. rewrite Hs in Hsome by done. unfold decoded in Hsome.
  destruct (inBytes !! (p * N + c)) as [b|]; [|done].
  injection Hsome as <-. by exists b.
Qed.

(** On a well-formed image with at least three channels, the encoder
    returns a buffer as soon as every sample it reads can be rounded. *)
Lemma encoded_defined im :
  Image_wf im -> 3 <= mNumChannels im ->
  (forall c p s, c < 4 -> sample im c p = Some s -> is_Some (sample_to_byte s)) ->
  is_Some (encoded im).
Proof.
  intros Hwf Hn Hok.
  assert (HN : mWide im * mHigh im = mNumPixels im) by (symmetry; apply Hwf).
  assert (Hpx : forall chans, length chans <= 4 ->
    (forall c ch, chans !! c = Some ch ->
       mChannels im !! c = Some ch /\ length ch = mNumPixels im) ->
    forall p, p < mNumPixels im -> is_Some (pixel_bytes chans p)).
  { intros chans Hl Hch p Hp. apply pixel_bytes_Some. intros c ch Hc.
    destruct (Hch c ch Hc) as [Him Hlen].
    destruct (lookup_lt_is_Some_2 ch p) as [s Hs]; [lia|].
    exists s. split; [done|]. apply (Hok c p).
    - apply lookup_lt_Some in Hc. lia.
    - unfold sample, cell. rewrite Him. done. }
  unfold encoded. rewrite HN.
  destruct (decide (3 < mNumChannels im)) as [H3|H3].
  - destruct (wf_channels4 im Hwf H3) as (c0 & c1 & c2 & c3 & H0 & H1 & H2 & H3' & Hch).
    rewrite H0, H1, H2, H3'. cbn [mbind option_bind].
    destruct (mapM_seq_Some (pixel_bytes [c0; c1; c2; c3]) (mNumPixels im))
      as [quads Hq]; [by apply Hpx|].
    rewrite Hq. by eexists.
  - destruct (wf_channels3 im Hwf) as (c0 & c1 & c2 & H0 & H1 & H2 & Hch); [lia|].
    rewrite H0, H1, H2. cbn [mbind option_bind].
    destruct (mapM_seq_Some (fun p => (.++ [xff]) <$> pixel_bytes [c0; c1; c2] p)
                (mNumPixels im)) as [quads Hq].
    { intros p Hp. destruct (Hpx [c0; c1; c2]) with (p := p) as [q Hq];
        [simpl; lia|done|done|]. rewrite Hq. by eexists. }
    rewrite Hq. by eexists.
Qed.

(** The encoder returns a buffer for every decoded image of three or
    more channels, and each byte it reads back is the byte decoded. *)
Lemma decoded_image_encodes inBytes N im :
  Image_wf im -> mNumChannels im = N -> 3 <= N ->
  (forall c p, c < N -> p < mWide im * mHigh im ->
     sample im c p = decoded inBytes N c p) ->
  exists bytes, encoded im = Some bytes /\
    length bytes = 4 * (mWide im * mHigh im) /\
    forall p, p < mWide im * mHigh im ->
      (forall k, k < 3 -> bytes !! (4 * p + k) = inBytes !! (p * N + k)) /\
      bytes !! (4 * p + 3) =
        if decide (3 < N) then inBytes !! (p * N + 3) else Some xff.
Proof.
  intros Hwf Hn HN Hs.
  assert (HNP : mWide im * mHigh im = mNumPixels im) by (symmetry; apply Hwf).
  destruct (encoded_defined im Hwf) as [bytes Hb]; [lia| |].
  { intros c p s Hc Hsome.
    assert (Hcp : c < N /\ p < mWide im * mHigh im).
    { unfold sample, cell in Hsome.
      destruct (mChannels im !! c) as [ch|] eqn:Hch; [|done].
      simpl in Hsome. split.
      - apply lookup_lt_Some in Hch. destruct Hwf as (_ & Hl & _). lia.
      - apply lookup_lt_Some in Hsome.
        destruct Hwf as (_ & _ & Hall).
        rewrite (proj1 (Forall_lookup _ _) Hall c ch Hch) in Hsome. lia. }
    destruct (decoded_sample_byte inBytes N im c p s Hs) as (b & _ & ->); try tauto.
    rewrite sample_to_byte_to_sample. by eexists. }
  exists bytes. split; [done|].
  destruct (encoded_quads im bytes Hb) as (Hlen & c0 & c1 & c2 & H0 & H1 & H2 & Hpx).
  split; [done|]. intros p Hp. specialize (Hpx p Hp).
  assert (Hbyte : forall chans q k ch,
    pixel_bytes chans p = Some q -> chans !! k = Some ch ->
    mChannels im !! k = Some ch -> k < N ->
    q !! k = inBytes !! (p * N + k)).
  { intros chans q k ch Hq Hk Him HkN.
    destruct (pixel_bytes_lookup _ _ _ Hq k ch Hk) as (s & b & Hsp & Hsb & Hqb).
    destruct (decoded_sample_byte inBytes N im k p s Hs) as (b0 & Hb0 & ->); [done|done| |].
    { unfold sample, cell. rewrite Him. done. }
    rewrite sample_to_byte_to_sample in Hsb. injection Hsb as <-.
    by rewrite Hqb, Hb0. }
  rewrite Hn in Hpx. destruct (decide (3 < N)) as [H3|H3].
  - destruct Hpx as (c3 & q & H3' & Hq & Hlook). split.
    + intros k Hk. rewrite Hlook by lia.
      destruct k as [|[|[|k]]]; [| | |lia];
        eapply (Hbyte [c0; c1; c2; c3]); try done; lia.
    + rewrite Hlook by lia. eapply (Hbyte [c0; c1; c2; c3]); try done.
  - destruct Hpx as (q & Hq & Ha & Hlook). split; [|done].
    intros k Hk. rewrite Hlook by lia.
    destruct k as [|[|[|k]]]; [| | |lia];
      eapply (Hbyte [c0; c1; c2]); try done; lia.
Qed.

(** X4.  Bytes survive the decoder and the encoder.  Decoding a packed
    RGBA buffer of width × height × 4 bytes and encoding the image
    gives the buffer back, byte for byte. *)
Theorem decode_encode_rgba junk junk' inBytes inWidth inHeight :
  length inBytes = inWidth * inHeight * 4 ->
  exists im,
    getImageFromBytes junk inBytes inWidth inHeight 4 = Some im /\
    getRGBABytes_static junk' im = Some inBytes.
Proof.
  intros Hlen.
  destruct (getImageFromBytes_spec junk inBytes inWidth inHeight 4)
    as (im & Hrun & Hw & Hh & Hn & Hwf & Hs); [lia|].
  exists im. split; [done|].
  rewrite getRGBABytes_static_encoded.
  destruct (decoded_image_encodes inBytes 4 im Hwf Hn) as (bytes & Hb & Hbl & Hlook);
    [lia|by rewrite Hw, Hh|].
  rewrite Hb. f_equal. rewrite Hw, Hh in Hbl, Hlook.
  apply (list_eq_quads _ _ (inWidth * inHeight)); [done|lia|].
  intros p k Hp Hk. destruct (Hlook p Hp) as [H012 H3].
  replace (4 * p + k) with (p * 4 + k) at 2 by lia.
  destruct (decide (k = 3)) as [->|Hk3].
  - rewrite H3. by rewrite decide_True by lia.
  - apply H012. lia.
Qed.

Lemma decode_encode_rgba_witness :
  exists im,
    getImageFromBytes (fun _ _ => 0%float)
      [x01; x02; x03; xff; x80; x7f; x00; xfe] 2 1 4 = Some im /\
    getRGBABytes_static (fun _ => x00) im =
      Some [x01; x02; x03; xff; x80; x7f; x00; xfe].
Proof. apply decode_encode_rgba. reflexivity. Defined.

(** X5.  Decoding a packed RGB buffer of width × height × 3 bytes and
    encoding the image gives the same colour bytes with the opaque
    alpha byte 255 after every pixel. *)
Theorem decode_encode_rgb junk junk' inBytes inWidth inHeight :
  length inBytes = inWidth * inHeight * 3 ->
  exists im,
    getImageFromBytes junk inBytes inWidth inHeight 3 = Some im /\
    getRGBABytes_static junk' im = Some (with_opaque_alpha inBytes).
Proof.
  intros Hlen.
  destruct (getImageFromBytes_spec junk inBytes inWidth inHeight 3)
    as (im & Hrun & Hw & Hh & Hn & Hwf & Hs); [lia|].
  exists im. split; [done|].
  rewrite getRGBABytes_static_encoded.
  destruct (decoded_image_encodes inBytes 3 im Hwf Hn) as (bytes & Hb & Hbl & Hlook);
    [lia|by rewrite Hw, Hh|].
  rewrite Hb. f_equal. rewrite Hw, Hh in Hbl, Hlook.
  destruct (with_opaque_alpha_lookup (inWidth * inHeight) inBytes) as [Hal Halook]; [lia|].
  apply (list_eq_quads _ _ (inWidth * inHeight)); [done|done|].
  intros p k Hp Hk. destruct (Hlook p Hp) as [H012 H3].
  destruct (Halook p Hp) as [Ha3 Ha012].
  destruct (decide (k = 3)) as [->|Hk3].
  - rewrite H3, Ha3. by rewrite decide_False by lia.
  - rewrite H012, Ha012 by lia. f_equal. lia.
Qed.

Lemma decode_encode_rgb_witness :
  exists im,
    getImageFromBytes (fun _ _ => 0%float)
      [x01; x02; x03; x80; x7f; x00] 2 1 3 = Some im /\
    getRGBABytes_static (fun _ => x00) im =
      Some (with_opaque_alpha [x01; x02; x03; x80; x7f; x00]).
Proof. apply decode_encode_rgb. reflexivity. Defined.

(** ** What the decoder reads *)

Lemma for_loop_snoc {S : Type} (body : nat -> S -> option S) k : forall from s,
  for_loop (Datatypes.S k) from body s =
  t ← for_loop k from body s; body (from + k) t.
Proof.
  induction k as [|k IH]; intros from s.
  - simpl. rewrite Nat.add_0_r. by destruct (body from s).
  - change (for_loop (Datatypes.S (Datatypes.S k)) from body s)
      with (s1 ← body from s; for_loop (Datatypes.S k) (Datatypes.S from) body s1).
    cbn [for_loop]. destruct (body from s) as [s1|]; cbn [mbind option_bind]; [|done].
    rewrite <- Nat.add_succ_comm. apply IH.
Qed.

(** The channel loop of one pixel reads as many bytes as it runs
    iterations, and they must all be inside the buffer. *)
Lemma decode_channels_reads inBytes q m : forall bi chs st,
  for_loop m 0 (decode_channel inBytes q) (bi, chs) = Some st ->
  fst st = bi + m /\ (0 < m -> bi + m <= length inBytes).
Proof.
  induction m as [|m IH]; intros bi chs st Hrun.
  - injection Hrun as <-. simpl. lia.
  - rewrite for_loop_snoc in Hrun.
    destruct (for_loop m 0 (decode_channel inBytes q) (bi, chs)) as [[b t]|] eqn:Hm;
      [|done].
    destruct (IH _ _ _ Hm) as [Hb _]. simpl in Hb. subst b.
    cbn [mbind option_bind] in Hrun. unfold decode_channel, Arr.read in Hrun.
    destruct (inBytes !! (bi + m)) as [v|] eqn:Hv; [|done].
    apply lookup_lt_Some in Hv. cbn [mbind option_bind] in Hrun.
    destruct (poke t (0 + m) q (byte_to_sample v)); [|done].
    injection Hrun as <-. simpl. lia.
Qed.

Lemma decode_rows_reads inBytes N inWidth inHeight chs chs' :
  decode_rows (decode_pixelN inBytes N) inWidth inHeight chs = Some chs' ->
  inWidth * inHeight * N <= length inBytes.
Proof.
  unfold decode_rows. intros Hrun.
  destruct inHeight as [|h]; [lia|]. destruct inWidth as [|w]; [lia|].
  rewrite for_loop_snoc in Hrun.
  destruct (for_loop h 0 _ (0, chs)) as [[r t]|]; [|done].
  cbn [mbind option_bind] in Hrun.
  rewrite for_loop_snoc in Hrun.
  destruct (for_loop w 0 _ t) as [u|]; [|done].
  cbn [mbind option_bind] in Hrun. unfold decode_pixelN at 1 in Hrun.
  destruct (for_loop N 0 _ _) as [st|] eqn:Hpx; [|done].
  apply decode_channels_reads in Hpx as [_ Hle].
  destruct N as [|n]; [lia|]. specialize (Hle ltac:(lia)). nia.
Qed.

(** X6.  The decoder returns an image exactly when the buffer holds at
    least width × height × N bytes; on a shorter buffer it reads past
    the end and has no defined result. *)
Theorem getImageFromBytes_defined junk inBytes inWidth inHeight N :
  is_Some (getImageFromBytes junk inBytes inWidth inHeight N) <->
  inWidth * inHeight * N <= length inBytes.
Proof.
  split.
  - rewrite getImageFromBytes_general_eq. unfold getImageFromBytes_general.
    intros [im Him].
    destruct (decode_rows _ _ _ _) as [chs|] eqn:Hrun; [|done].
    by eapply decode_rows_reads.
  - intros Hlen.
    destruct (getImageFromBytes_spec junk inBytes inWidth inHeight N Hlen)
      as (im & Him & _). by exists im.
Qed.

(** Two well-formed images of the same size with the same samples are
    the same image. *)
Lemma Image_ext im1 im2 :
  Image_wf im1 -> Image_wf im2 ->
  mWide im1 = mWide im2 -> mHigh im1 = mHigh im2 ->
  mNumChannels im1 = mNumChannels im2 ->
  (forall c p, c < mNumChannels im1 -> p < mWide im1 * mHigh im1 ->
     sample im1 c p = sample im2 c p) ->
  im1 = im2.
Proof.
  intros (Hp1 & Hl1 & Ha1) (Hp2 & Hl2 & Ha2) Hw Hh Hn Hs.
  destruct im1 as [w1 h1 np1 n1 chs1], im2 as [w2 h2 np2 n2 chs2].
  simpl in *. subst w2 h2 n2 np1 np2.
  assert (Hchs : chs1 = chs2); [|by rewrite Hchs, Hn].
  apply list_eq. intros c.
  destruct (decide (c < n1)) as [Hc|Hc].
  - destruct (lookup_lt_is_Some_2 chs1 c) as [ch1 H1]; [lia|].
    destruct (lookup_lt_is_Some_2 chs2 c) as [ch2 H2]; [lia|].
    rewrite H1, H2. f_equal. apply list_eq. intros p.
    pose proof (proj1 (Forall_lookup _ _) Ha1 c ch1 H1) as L1.
    pose proof (proj1 (Forall_lookup _ _) Ha2 c ch2 H2) as L2.
    simpl in L1, L2.
    destruct (decide (p < w1 * h1)) as [Hp|Hp].
    + specialize (Hs c p Hc Hp). unfold sample, cell in Hs. simpl in Hs.
      by rewrite H1, H2 in Hs.
    + rewrite !(proj2 (lookup_ge_None _ _)) by lia. done.
  - rewrite !(proj2 (lookup_ge_None _ _)) by lia. done.
Qed.

(** X7.  The decoder's result is a function of the first
    width × height × N bytes alone: bytes after them are never read,
    and nothing of what the fresh image's unzeroed buffers held is left
    in the image. *)
Theorem getImageFromBytes_reads_prefix
    junk junk' inBytes extra inWidth inHeight N :
  length inBytes = inWidth * inHeight * N ->
  getImageFromBytes junk (inBytes ++ extra) inWidth inHeight N =
  getImageFromBytes junk' inBytes inWidth inHeight N.
Proof.
  intros Hlen.
  destruct (getImageFromBytes_spec junk (inBytes ++ extra) inWidth inHeight N)
    as (im1 & Him1 & Hw1 & Hh1 & Hn1 & Hwf1 & Hs1).
  { rewrite length_app. lia. }
  destruct (getImageFromBytes_spec junk' inBytes inWidth inHeight N)
    as (im2 & Him2 & Hw2 & Hh2 & Hn2 & Hwf2 & Hs2); [lia|].
  rewrite Him1, Him2. f_equal.
  apply Image_ext; try done; try congruence.
  intros c p Hc Hp. rewrite Hn1 in Hc. rewrite Hw1, Hh1 in Hp.
  rewrite Hs1, Hs2 by done. unfold decoded.
  rewrite lookup_app_l; [done|].
  assert ((p + 1) * N <= inWidth * inHeight * N) by (apply Nat.mul_le_mono_r; lia).
  lia.
Qed.

Lemma getImageFromBytes_reads_prefix_witness :
  getImageFromBytes (fun _ _ => 7%float) ([x01; x02; x03; x04] ++ [xff; xfe]) 2 1 2 =
  getImageFromBytes (fun _ _ => 0%float) [x01; x02; x03; x04] 2 1 2.
Proof. apply getImageFromBytes_reads_prefix. reflexivity. Defined.

(** ** Images without pixels *)

(** X8.  With width or height 0 no loop body runs.  The decoder
    returns an image of N empty channels without reading the buffer,
    whatever the buffer is; the encoder returns the empty buffer for
    every well-formed image with at least three channels. *)
Theorem zero_size_conversions :
  (forall junk inBytes inWidth inHeight N,
     inWidth * inHeight = 0 ->
     getImageFromBytes junk inBytes inWidth inHeight N =
     Some (mkImage inWidth inHeight 0 N (replicate N []))) /\
  (forall junk im,
     Image_wf im -> 3 <= getNumChannels im ->
     getWidth im * getHeight im = 0 ->
     getRGBABytes_static junk im = Some []).
Proof.
  split.
  - intros junk inBytes w h N H0.
    destruct (getImageFromBytes_spec junk inBytes w h N)
      as (im & Him & Hw & Hh & Hn & Hwf & Hs); [rewrite H0; simpl; lia|].
    rewrite Him. f_equal. apply Image_ext; try done.
    + unfold Image_wf. simpl. split; [lia|]. split; [apply length_replicate|].
      apply Forall_replicate. done.
    + intros c p _ Hp. rewrite Hw, Hh in Hp. lia.
  - unfold getNumChannels, getWidth, getHeight. intros junk im Hwf Hn H0.
    rewrite getRGBABytes_static_encoded.
    destruct (encoded_defined im Hwf Hn) as [bytes Hb].
    { intros c p s _ Hs. unfold sample, cell in Hs.
      destruct (mChannels im !! c) as [ch|] eqn:Hch; [|done]. simpl in Hs.
      apply lookup_lt_Some in Hs. destruct Hwf as (Hpx & _ & Hall).
      pose proof (proj1 (Forall_lookup _ _) Hall c ch Hch) as Hl. simpl in Hl.
      lia. }
    rewrite Hb. f_equal.
    destruct (encoded_quads im bytes Hb) as [Hlen _].
    rewrite H0 in Hlen. by destruct bytes.
Qed.

Lemma zero_size_conversions_witness :
  getImageFromBytes (fun _ _ => 7%float) [] 0 5 3 =
    Some (mkImage 0 5 0 3 (replicate 3 [])) /\
  getRGBABytes_static (fun _ => x00) (mkImage 0 5 0 3 (replicate 3 [])) = Some [].
Proof.
  split.
  - apply (proj1 zero_size_conversions). reflexivity.
  - apply (proj2 zero_size_conversions).
    + unfold Image_wf. simpl. repeat split; try done. repeat constructor.
    + simpl. lia.
    + reflexivity.
Defined.

(** ** The converting constructor and the encoder *)

(** What the converting constructor returns on a well-formed image. *)
Lemma RGBAImage_of_Image_run junk inImage :
  Image_wf inImage ->
  exists chs,
    RGBAImage_of_Image junk inImage =
      Some (mkImage (mWide inImage) (mHigh inImage)
              (mWide inImage * mHigh inImage) 4 chs) /\
    shape 4 (mWide inImage * mHigh inImage) chs /\
    (forall c, c < 4 -> c < mNumChannels inImage ->
       chs !! c = mChannels inImage !! c) /\
    (mNumChannels inImage < 4 ->
       chs !! 3 = Some (replicate (mWide inImage * mHigh inImage) 1%float)).
Proof.
  intros Hwf. unfold RGBAImage_of_Image, getWidth, getHeight, getNumChannels.
  set (n := mNumChannels inImage).
  set (len := mWide inImage * mHigh inImage).
  assert (Hlen : mNumPixels inImage = len) by apply Hwf.
  set (this0 := Image_new junk (mWide inImage) (mHigh inImage) 4 (bool_decide (n < 4))).
  assert (Hpx : mNumPixels this0 = len) by done.
  assert (Hinit : shape 4 len (mChannels this0)) by apply Image_new_shape.
  rewrite Hpx.
  destruct (decide (n < 4)) as [Hn|Hn].
  - destruct (copy_channels_spec inImage len (mChannels this0) n Hwf Hlen Hinit)
      as (chs & Hrun & Hsh & Hlk); [lia|done|].
    rewrite Hrun. cbn [mbind option_bind].
    destruct (shape_lookup _ _ _ 3 Hsh) as (ch3 & H3 & _); [lia|].
    rewrite (fill_alpha_spec len chs ch3 Hsh H3). cbn [mbind option_bind].
    rewrite decide_True by done.
    assert (L : 3 < length chs) by (destruct Hsh; lia).
    eexists. split; [done|]. split; [|split].
    + apply shape_insert; [done|]. apply length_replicate.
    + intros c Hc4 Hc. rewrite list_lookup_insert_ne by (fold n in Hc; lia).
      rewrite Hlk. by rewrite decide_True.
    + intros _. by apply list_lookup_insert_eq.
  - destruct (copy_channels_spec inImage len (mChannels this0) 4 Hwf Hlen Hinit)
      as (chs & Hrun & Hsh & Hlk); [lia|lia|].
    rewrite Hrun. cbn [mbind option_bind]. rewrite decide_False by lia.
    eexists. split; [done|]. split; [done|]. split.
    + intros c Hc4 Hc. rewrite Hlk. by rewrite decide_True.
    + intros Hlt. fold n in Hlt. lia.
Qed.

Lemma sample_to_byte_one : sample_to_byte 1 = Some xff.
Proof. vm_compute. reflexivity. Qed.

Lemma sample_to_byte_zero : sample_to_byte 0 = Some x00.
Proof. vm_compute. reflexivity. Qed.

(** A pixel's bytes with an all-ones alpha buffer are its colour bytes
    followed by 255. *)
Lemma pixel_bytes_opaque c0 c1 c2 len p :
  p < len ->
  pixel_bytes [c0; c1; c2; replicate len 1%float] p =
  (.++ [xff]) <$> pixel_bytes [c0; c1; c2] p.
Proof.
  intros Hp. unfold pixel_bytes. cbn [mapM].
  rewrite (lookup_replicate_2 len 1%float p Hp). cbn [mbind option_bind].
  rewrite sample_to_byte_one.
  destruct (c0 !! p ≫= _) as [b0|]; cbn; [|done].
  destruct (c1 !! p ≫= _) as [b1|]; cbn; [|done].
  destruct (c2 !! p ≫= _) as [b2|]; cbn; done.
Qed.

(** X9.  The static encoder is the shortcut its comment announces: on a
    well-formed image with three or more channels it returns exactly
    what the member encoder returns on the RGBA image built from that
    image by the converting constructor. *)
Theorem getRGBABytes_static_skips_conversion junk junkB junkB' inImage :
  Image_wf inImage -> 3 <= getNumChannels inImage ->
  exists rgba,
    RGBAImage_of_Image junk inImage = Some rgba /\
    getRGBABytes junkB rgba = getRGBABytes_static junkB' inImage.
Proof.
  unfold getNumChannels. intros Hwf Hn.
  destruct (RGBAImage_of_Image_run junk inImage Hwf) as (chs & Hrun & Hsh & Hcopy & Hone).
  eexists. split; [exact Hrun|].
  unfold getRGBABytes. rewrite !getRGBABytes_static_encoded.
  unfold encoded. cbn [mChannels mWide mHigh mNumChannels].
  rewrite (Hcopy 0), (Hcopy 1), (Hcopy 2) by lia.
  destruct (mChannels inImage !! 0) as [c0|]; cbn [mbind option_bind]; [|done].
  destruct (mChannels inImage !! 1) as [c1|]; cbn [mbind option_bind]; [|done].
  destruct (mChannels inImage !! 2) as [c2|]; cbn [mbind option_bind]; [|done].
  rewrite decide_True by lia.
  destruct (decide (3 < mNumChannels inImage)) as [H3|H3].
  - by rewrite (Hcopy 3) by lia.
  - rewrite Hone by lia. cbn [mbind option_bind]. f_equal.
    apply Forall_mapM_ext, Forall_forall. intros p Hp.
    apply list_elem_of_In, in_seq in Hp.
    apply pixel_bytes_opaque. lia.
Qed.

Lemma getRGBABytes_static_skips_conversion_witness :
  exists rgba,
    RGBAImage_of_Image (fun _ _ => 7%float) (img1x1 [0.5; 0.25; 0.75]%float)
      = Some rgba /\
    getRGBABytes (fun _ => x00) rgba =
    getRGBABytes_static (fun _ => x00) (img1x1 [0.5; 0.25; 0.75]%float).
Proof.
  apply getRGBABytes_static_skips_conversion.
  - unfold Image_wf. simpl. repeat split; try done. repeat constructor.
  - simpl. lia.
Defined.

(** X10.  Converting is idempotent: the image the converting
    constructor builds from a well-formed image is one it copies
    unchanged, and a well-formed four-channel image is copied as it
    is. *)
Theorem RGBAImage_of_Image_idempotent junk junk' inImage :
  Image_wf inImage ->
  exists rgba,
    RGBAImage_of_Image junk inImage = Some rgba /\
    RGBAImage_of_Image junk' rgba = Some rgba /\
    (getNumChannels inImage = 4 -> rgba = inImage).
Proof.
  assert (Hid : forall j im, Image_wf im -> mNumChannels im = 4 ->
                  RGBAImage_of_Image j im = Some im).
  { intros j im Hwf Hn.
    destruct (RGBAImage_of_Image_run j im Hwf) as (chs & Hrun & Hsh & Hcopy & _).
    rewrite Hrun. f_equal.
    assert (Hchs : chs = mChannels im).
    { apply list_eq. intros c. destruct (decide (c < 4)) as [Hc|Hc].
      - apply Hcopy; lia.
      - destruct Hsh as [Hl _]. destruct Hwf as (_ & Hl' & _).
        rewrite !(proj2 (lookup_ge_None _ _)) by lia. done. }
    destruct Hwf as (Hpx & _ & _). destruct im as [w h np nc cs].
    simpl in *. by rewrite Hchs, Hpx, Hn. }
  intros Hwf.
  destruct (RGBAImage_of_Image_run junk inImage Hwf) as (chs & Hrun & Hsh & Hcopy & _).
  eexists. split; [exact Hrun|]. split.
  - apply Hid; [|done]. unfold Image_wf. simpl.
    destruct Hsh as [Hl Hall]. done.
  - unfold getNumChannels. intros Hn.
    pose proof (Hid junk inImage Hwf Hn) as Hid'.
    rewrite Hrun in Hid'. by injection Hid'.
Qed.

Lemma RGBAImage_of_Image_idempotent_witness :
  exists rgba,
    RGBAImage_of_Image (fun _ _ => 7%float) (img1x1 [0.5; 0.25]%float) = Some rgba /\
    RGBAImage_of_Image (fun _ _ => 3%float) rgba = Some rgba /\
    (getNumChannels (img1x1 [0.5; 0.25]%float) = 4 ->
     rgba = img1x1 [0.5; 0.25]%float).
Proof.
  apply RGBAImage_of_Image_idempotent.
  unfold Image_wf. simpl. repeat split; try done. repeat constructor.
Defined.

Lemma Image_new_wf junk w h n z : Image_wf (Image_new junk w h n z).
Proof.
  pose proof (Image_new_shape junk w h n z) as [Hl Hall].
  unfold Image_wf. done.
Qed.

(** X11.  A freshly constructed RGBA image is transparent black: the
    member encoder returns 4 × width × height zero bytes for it. *)
Theorem RGBAImage_new_encodes_zeros junk inWidth inHeight :
  getRGBABytes junk (RGBAImage_new inWidth inHeight) =
  Some (replicate (4 * (inWidth * inHeight)) x00).
Proof.
  unfold getRGBABytes. rewrite getRGBABytes_static_encoded.
  set (im := RGBAImage_new inWidth inHeight).
  assert (Hwf : Image_wf im) by apply Image_new_wf.
  assert (Hzero : forall c p s, sample im c p = Some s -> s = 0%float).
  { intros c p s Hs. unfold sample, cell, im, RGBAImage_new in Hs.
    destruct (decide (c < 4)) as [Hc|Hc].
    - rewrite Image_new_lookup in Hs by done. simpl in Hs.
      apply lookup_replicate in Hs. by destruct Hs.
    - rewrite (proj2 (lookup_ge_None _ _)) in Hs; [done|].
      pose proof (Image_new_shape (fun _ _ => 0%float) inWidth inHeight 4 true) as [Hl _].
      lia. }
  destruct (encoded_defined im Hwf) as [bytes Hb]; [simpl; lia| |].
  { intros c p s _ Hs. rewrite (Hzero c p s Hs), sample_to_byte_zero. by eexists. }
  rewrite Hb. f_equal.
  destruct (encoded_quads im bytes Hb) as (Hlen & c0 & c1 & c2 & H0 & H1 & H2 & Hpx).
  change (mWide im) with inWidth in *. change (mHigh im) with inHeight in *.
  apply (list_eq_quads _ _ (inWidth * inHeight)); [done|apply length_replicate|].
  intros p k Hp Hk. specialize (Hpx p Hp).
  change (mNumChannels im) with 4 in Hpx. rewrite decide_True in Hpx by lia.
  destruct Hpx as (c3 & q & H3 & Hq & Hlook).
  rewrite Hlook by done. rewrite lookup_replicate_2 by lia.
  assert (Hch : exists ch, [c0; c1; c2; c3] !! k = Some ch /\ mChannels im !! k = Some ch).
  { destruct k as [|[|[|[|k]]]]; [| | | |lia]; eexists; split; simpl; done. }
  destruct Hch as (ch & Hk4 & Hkim).
  destruct (pixel_bytes_lookup _ _ _ Hq k ch Hk4) as (s & b & Hs & Hsb & Hqb).
  rewrite (Hzero k p s) in Hsb.
  - rewrite sample_to_byte_zero in Hsb. by injection Hsb as <-.
  - unfold sample, cell. rewrite Hkim. done.
Qed.

(** ** Filtering and the encoder *)

(** What the all-channels filter returns on a four-channel image. *)
Lemma RGBAImage_filter_run {F : Type} (inFilter : ChannelFilter F) f this f' this' :
  length (mChannels this) = 4 -> mNumChannels this = 4 ->
  RGBAImage_filter inFilter (f, this) = Some (f', this') ->
  mWide this' = mWide this /\ mHigh this' = mHigh this /\
  mNumChannels this' = 4 /\
  mChannels this' !! 3 = mChannels this !! 3.
Proof.
  intros Hlen Hn. destruct this as [w h np nc chs]. simpl in *. subst nc.
  destruct chs as [|c0 [|c1 [|c2 [|c3 [|c4 chs]]]]]; try done.
  unfold RGBAImage_filter. simpl.
  destruct (inFilter f c0 w h) as [f1 c0']. simpl.
  destruct (inFilter f1 c1 w h) as [f2 c1']. simpl.
  destruct (inFilter f2 c2 w h) as [f3 c2']. simpl.
  intros [= <- <-]. done.
Qed.

(** X12.  Filtering never shows in the alpha bytes: for a four-channel
    RGBA image, the encoder's fourth byte of every pixel is the same
    after the all-channels filter as before it, whatever the filter
    does to the colour channels. *)
Theorem RGBAImage_filter_keeps_alpha_bytes {F : Type}
    (inFilter : ChannelFilter F) f this f' this' junk junk' bytes bytes' :
  Image_wf this -> getNumChannels this = 4 ->
  RGBAImage_filter inFilter (f, this) = Some (f', this') ->
  getRGBABytes junk this = Some bytes ->
  getRGBABytes junk' this' = Some bytes' ->
  forall p, p < getWidth this * getHeight this ->
    bytes' !! (4 * p + 3) = bytes !! (4 * p + 3).
Proof.
  unfold getNumChannels, getWidth, getHeight, getRGBABytes.
  rewrite !getRGBABytes_static_encoded.
  intros (_ & Hlen & _) Hn Hrun Hb Hb' p Hp. rewrite Hn in Hlen.
  destruct (RGBAImage_filter_run inFilter f this f' this' Hlen Hn Hrun)
    as (Hw & Hh & Hn' & H3).
  assert (Halpha : forall im bs, mNumChannels im = 4 -> encoded im = Some bs ->
    p < mWide im * mHigh im ->
    bs !! (4 * p + 3) =
      (ch ← mChannels im !! 3; s ← ch !! p; sample_to_byte s)).
  { intros im bs Hn4 Hbs Hpim.
    destruct (encoded_quads im bs Hbs) as (_ & c0 & c1 & c2 & _ & _ & _ & Hpx).
    specialize (Hpx p Hpim). rewrite decide_True in Hpx by lia.
    destruct Hpx as (c3 & q & Hc3 & Hq & Hlook).
    rewrite Hlook by lia.
    destruct (pixel_bytes_lookup _ _ _ Hq 3 c3 eq_refl) as (s & b & Hs & Hsb & Hqb).
    rewrite Hc3. cbn [mbind option_bind]. rewrite Hs. cbn [mbind option_bind].
    by rewrite Hsb. }
  rewrite (Halpha this bytes Hn Hb Hp).
  rewrite (Halpha this' bytes' Hn' Hb') by (rewrite Hw, Hh; done).
  by rewrite H3.
Qed.

Lemma RGBAImage_filter_keeps_alpha_bytes_witness :
  [xbf; x80; xff; x40] !! (4 * 0 + 3) = [x80; x40; xbf; x40] !! (4 * 0 + 3).
Proof.
  apply (RGBAImage_filter_keeps_alpha_bytes
           (fun (f : unit) ch _ _ => (f, (fun s => s + 0.25)%float <$> ch))
           tt (mkImage 1 1 1 4 [[0.5]; [0.25]; [0.75]; [0.25]]%float)
           tt (mkImage 1 1 1 4 [[0.75]; [0.5]; [1]; [0.25]]%float)
           (fun _ => x00) (fun _ => x00)).
  - unfold Image_wf. simpl. repeat split; try done. repeat constructor.
  - reflexivity.
  - vm_compute. reflexivity.
  - vm_compute. reflexivity.
  - vm_compute. reflexivity.
  - simpl. lia.
Defined.

(** ** Decoding loses nothing *)

Lemma byte_to_sample_inj b b' : byte_to_sample b = byte_to_sample b' -> b = b'.
Proof.
  intros H. apply (f_equal sample_to_byte) in H.
  rewrite !sample_to_byte_to_sample in H. by injection H.
Qed.

(** X13.  For any channel count, two buffers of width × height × N
    bytes that decode to the same image are the same buffer: distinct
    bytes always give distinct samples. *)
Theorem getImageFromBytes_injective junk junk' bytes1 bytes2 inWidth inHeight N :
  length bytes1 = inWidth * inHeight * N ->
  length bytes2 = inWidth * inHeight * N ->
  getImageFromBytes junk bytes1 inWidth inHeight N =
  getImageFromBytes junk' bytes2 inWidth inHeight N ->
  bytes1 = bytes2.
Proof.
  intros H1 H2 Heq.
  destruct (getImageFromBytes_spec junk bytes1 inWidth inHeight N)
    as (im1 & Him1 & _ & _ & _ & _ & Hs1); [lia|].
  destruct (getImageFromBytes_spec junk' bytes2 inWidth inHeight N)
    as (im2 & Him2 & _ & _ & _ & _ & Hs2); [lia|].
  rewrite Him1, Him2 in Heq. injection Heq as <-.
  apply list_eq. intros i.
  destruct (decide (i < inWidth * inHeight * N)) as [Hi|Hi].
  - assert (HN : N <> 0) by (intros ->; lia).
    assert (Hp : i / N < inWidth * inHeight).
    { apply Nat.Div0.div_lt_upper_bound. lia. }
    assert (Hc : i mod N < N) by (by apply Nat.mod_upper_bound).
    pose proof (Hs1 (i mod N) (i / N) Hc Hp) as E1.
    rewrite (Hs2 (i mod N) (i / N) Hc Hp) in E1. unfold decoded in E1.
    replace (i / N * N + i mod N) with i in E1
      by (rewrite (Nat.div_mod_eq i N) at 1; lia).
    destruct (bytes1 !! i) as [x|], (bytes2 !! i) as [y|]; try done.
    simpl in E1. injection E1 as E1. f_equal. symmetry. by apply byte_to_sample_inj.
  - rewrite !(proj2 (lookup_ge_None _ _)) by lia. done.
Qed.

Lemma getImageFromBytes_injective_witness : [x01; x02; x03] = [x01; x02; x03].
Proof.
  apply (getImageFromBytes_injective (fun _ _ => 0%float) (fun _ _ => 7%float)
           _ _ 3 1 1); reflexivity.
Defined.
